(** * Event layout engine of the calendar view

    A shallow embedding of [calculateEventPositions]
    (src/components/CustomCalendar.tsx, lines 97-286) and the proofs of its
    layout properties: overlap clustering, column packing, the cluster-wide
    column count, multi-day clamping and the pixel projection.

    Modelling conventions.
    - A JavaScript [Date] is the integer number of milliseconds of local
      wall-clock time since 1970-01-01T00:00 local (a fixed-offset zone, no
      daylight-saving jumps).  [getTime] differences, comparisons and the
      local calendar day / hour / minute are then plain integer arithmetic.
    - [event.start] and [event.end] are ISO strings in the source; a field
      that is absent, [null] or the empty string (all falsy) is [None], a
      parseable one is [Some] of its instant.
    - JavaScript numbers that come out of a division (top, height, left,
      width) are exact rationals: the value of the expression before it is
      rounded to a double.  They are given as expressions of integers
      (minutes, column, column count) and compared by equality only;
      bounds are stated on the integers.  [100 / 0] and what follows from
      it are kept apart as [PosInf] and [NaN].
    - The function is local to the module; the week view and the day view
      call it with [events.filter(event => event && event.start)] (lines
      1102-1107 and 1322-1327), so every event it receives has a start. *)

From Stdlib Require Import ZArith QArith Qround Lia.
From stdpp Require Import base list strings sorting.

Local Open Scope Z_scope.

(** ** Data model *)

(** [CalendarEvent]: the fields the layout reads.  The remaining fields
    (title, color, type, ...) ride along untouched in the source. *)
Record CalendarEvent := mkEvent {
  id : string;
  start : option Z;
  end_ : option Z
}.

(** An entry of the local [layouts] array. *)
Record Layout := mkLayout {
  event : CalendarEvent;
  column : nat;
  total : nat;
  isMultiDay : bool;
  continuesNextDay : bool;
  continuesFromPrevDay : bool
}.

(** A JavaScript number produced by [100 / item.total]. *)
Inductive jsnum :=
| Fin (q : Q)
| PosInf
| NaN.

(** An element of the returned array. *)
Record Placed := mkPlaced {
  p_event : CalendarEvent;
  p_top : Q;
  p_height : Q;
  p_left : jsnum;
  p_width : jsnum;
  p_isMultiDay : bool;
  p_continuesNextDay : bool;
  p_continuesFromPrevDay : bool
}.

(** ** Dates *)

Module JsDate.

Definition msPerMinute : Z := 60000.
Definition msPerHour : Z := 3600000.
Definition msPerDay : Z := 86400000.

(** Index of the local calendar day; [toDateString()] and
    [format(_, "yyyy-MM-dd")] of two dates agree exactly when this does. *)
Definition dayOf (t : Z) : Z := t / msPerDay.

Definition getHours (t : Z) : Z := (t mod msPerDay) / msPerHour.
Definition getMinutes (t : Z) : Z := (t mod msPerHour) / msPerMinute.

(** [d.setHours(h, m, s, ms)] *)
Definition setHours (t h m s ms : Z) : Z :=
  dayOf t * msPerDay + h * msPerHour + m * msPerMinute + s * 1000 + ms.

(** Days from 1970-01-01 to the civil date [y]-[m]-[d] (proleptic
    Gregorian calendar), used to write the dates of the examples. *)
Definition daysFromCivil (y m d : Z) : Z :=
  let y' := if m <=? 2 then y - 1 else y in
  let era := y' / 400 in
  let yoe := y' - era * 400 in
  let mp := (m + 9) mod 12 in
  let doy := (153 * mp + 2) / 5 + d - 1 in
  let doe := yoe * 365 + yoe / 4 - yoe / 100 + doy in
  era * 146097 + doe - 719468.

(** [new Date("y-m-dTh:mi")] in local time. *)
Definition at_ (y m d h mi : Z) : Z :=
  daysFromCivil y m d * msPerDay + h * msPerHour + mi * msPerMinute.

End JsDate.

(** ** Array.prototype.sort

    The sort is stable.  It is modelled as the in-place insertion sort:
    every element, taken from left to right, moves left past the elements
    that compare strictly greater.  For a consistent comparator every
    stable sort returns this same list; for an inconsistent one ECMAScript
    leaves the order to the implementation.  The comparator of the layout
    is consistent when every event has a start, as in every call of the
    function; what is proved for lists with an event without start holds
    for whatever rearrangement the sort returns. *)

Section Sort.
Context {A : Type} (cmp : A → A → Z).

(** [rev_sorted] is the already sorted prefix, last element first. *)
Fixpoint insertBack (x : A) (rev_sorted : list A) : list A :=
  match rev_sorted with
  | [] => [x]
  | y :: ys => if 0 <? cmp y x then y :: insertBack x ys else x :: y :: ys
  end.

Definition sort (l : list A) : list A :=
  reverse (fold_left (λ acc x, insertBack x acc) l []).
End Sort.

(** ** The layout function *)

Definition halfHour : Z := 30 * 60000.

(** [event.end ? new Date(event.end) : new Date(eventStart.getTime() + 30 * 60000)] *)
Definition endOr (eventStart : Z) (ev : CalendarEvent) : Z :=
  match end_ ev with
  | Some e => e
  | None => eventStart + halfHour
  end.

Definition isMultiDayEvent (ev : CalendarEvent) : bool :=
  match start ev, end_ ev with
  | Some s, Some e => negb (JsDate.dayOf s =? JsDate.dayOf e)
  | _, _ => false
  end.

Definition isContinuedFromPreviousDay (viewDate : Z) (ev : CalendarEvent) : bool :=
  match start ev, end_ ev with
  | Some s, Some _ =>
      negb (JsDate.dayOf s =? JsDate.dayOf viewDate) && isMultiDayEvent ev
  | _, _ => false
  end.

Definition continuesNextDay_ (viewDate : Z) (ev : CalendarEvent) : bool :=
  match start ev, end_ ev with
  | Some _, Some e =>
      negb (JsDate.dayOf e =? JsDate.dayOf viewDate) && isMultiDayEvent ev
  | _, _ => false
  end.

(** The comparator handed to [sort]. *)
Definition compareStart (a b : CalendarEvent) : Z :=
  match start a, start b with
  | Some sa, Some sb => sa - sb
  | _, _ => 0
  end.

Definition sortedEvents (events : list CalendarEvent) : list CalendarEvent :=
  sort compareStart events.

(** The callback of [currentGroup.some]. *)
Definition overlaps (eventStart eventEnd : Z) (ev : CalendarEvent) : bool :=
  match start ev with
  | None => false
  | Some evStart =>
      let evEnd := endOr evStart ev in
      (eventStart <? evEnd) && (eventEnd >? evStart)
  end.

(** One turn of the first [sortedEvents.forEach]; the state is
    [(groups, currentGroup)]. *)
Definition groupStep (st : list (list CalendarEvent) * list CalendarEvent)
    (ev : CalendarEvent) : list (list CalendarEvent) * list CalendarEvent :=
  match start ev with
  | None => st
  | Some eventStart =>
      let eventEnd := endOr eventStart ev in
      match st.2 with
      | [] => (st.1, [ev])
      | _ :: _ =>
          if existsb (overlaps eventStart eventEnd) st.2
          then (st.1, st.2 ++ [ev])
          else (st.1 ++ [st.2], [ev])
      end
  end.

Definition closeGroups (st : list (list CalendarEvent) * list CalendarEvent)
    : list (list CalendarEvent) :=
  match st.2 with
  | [] => st.1
  | _ :: _ => st.1 ++ [st.2]
  end.

Definition buildGroups (sorted : list CalendarEvent) : list (list CalendarEvent) :=
  closeGroups (fold_left groupStep sorted ([], [])).

(** The [for] loop over [columns]: the first index [i] (counted from
    [base]) whose event ends at or before [eventStart]. *)
Fixpoint findColumn (eventStart : Z) (columns : list CalendarEvent) (base : nat)
    : option nat :=
  match columns with
  | [] => None
  | lastEvent :: rest =>
      match start lastEvent with
      | None => findColumn eventStart rest (S base)
      | Some lastStart =>
          if eventStart >=? endOr lastStart lastEvent
          then Some base
          else findColumn eventStart rest (S base)
      end
  end.

Definition newLayout (viewDate : Z) (ev : CalendarEvent) (col : nat) : Layout :=
  {| event := ev; column := col; total := 0;
     isMultiDay := isMultiDayEvent ev;
     continuesNextDay := continuesNextDay_ viewDate ev;
     continuesFromPrevDay := isContinuedFromPreviousDay viewDate ev |}.

(** One turn of the inner [group.forEach]; the state is
    [(columns, layouts)]. *)
Definition placeStep (viewDate : Z) (st : list CalendarEvent * list Layout)
    (ev : CalendarEvent) : list CalendarEvent * list Layout :=
  match start ev with
  | None => st
  | Some eventStart =>
      match findColumn eventStart st.1 0 with
      | Some i => (<[i := ev]> st.1, st.2 ++ [newLayout viewDate ev i])
      | None => (st.1 ++ [ev], st.2 ++ [newLayout viewDate ev (length st.1)])
      end
  end.

Definition withTotal (n : nat) (l : Layout) : Layout :=
  {| event := event l; column := column l; total := n;
     isMultiDay := isMultiDay l;
     continuesNextDay := continuesNextDay l;
     continuesFromPrevDay := continuesFromPrevDay l |}.

(** [layouts.find(l => l.event.id === eid)] followed by
    [layout.total = n]: the first match is updated in place. *)
Fixpoint setTotal (eid : string) (n : nat) (layouts : list Layout) : list Layout :=
  match layouts with
  | [] => []
  | l :: ls =>
      if String.eqb (id (event l)) eid
      then withTotal n l :: ls
      else l :: setTotal eid n ls
  end.

(** One turn of [groups.forEach]: pack the group, then broadcast the
    number of columns. *)
Definition processGroup (viewDate : Z) (layouts : list Layout)
    (group : list CalendarEvent) : list Layout :=
  let st := fold_left (placeStep viewDate) group ([], layouts) in
  fold_left (λ ls ev, setTotal (id ev) (length st.1) ls) group st.2.

Definition computeLayouts (events : list CalendarEvent) (viewDate : Z) : list Layout :=
  fold_left (processGroup viewDate) (buildGroups (sortedEvents events)) [].

Definition minutesOfDay (t : Z) : Z := JsDate.getHours t * 60 + JsDate.getMinutes t.

Definition adjustedStartTime (viewDate : Z) (item : Layout) (eventStart : Z) : Z :=
  if continuesFromPrevDay item then viewDate else eventStart.

Definition adjustedEndTime (viewDate : Z) (item : Layout) (eventEnd : Z) : Z :=
  if continuesNextDay item then JsDate.setHours viewDate 23 59 59 999 else eventEnd.

Definition widthPercentage (n : nat) : jsnum :=
  match n with
  | O => PosInf
  | S _ => Fin (100 / inject_Z (Z.of_nat n))
  end.

Definition leftPercentage (col : nat) (w : jsnum) : jsnum :=
  match w with
  | Fin q => Fin (inject_Z (Z.of_nat col) * q)
  | PosInf => match col with O => NaN | S _ => PosInf end
  | NaN => NaN
  end.

(** The callback of the final [layouts.map]; [None] is the [null] that
    [filter(Boolean)] drops. *)
Definition project (startHour : Z) (hourHeight : Q) (viewDate : Z) (item : Layout)
    : option Placed :=
  match start (event item) with
  | None => None
  | Some eventStart =>
      let eventEnd := endOr eventStart (event item) in
      let startMinutes := minutesOfDay (adjustedStartTime viewDate item eventStart) in
      let endMinutes := minutesOfDay (adjustedEndTime viewDate item eventEnd) in
      let w := widthPercentage (total item) in
      Some {| p_event := event item;
              p_top := (inject_Z (startMinutes - startHour * 60) / 60 * hourHeight)%Q;
              p_height := (inject_Z (endMinutes - startMinutes) / 60 * hourHeight)%Q;
              p_left := leftPercentage (column item) w;
              p_width := w;
              p_isMultiDay := isMultiDay item;
              p_continuesNextDay := continuesNextDay item;
              p_continuesFromPrevDay := continuesFromPrevDay item |}
  end.

Definition calculateEventPositions (events : list CalendarEvent)
    (startHour : Z) (hourHeight : Q) (viewDate : Z) : list Placed :=
  match events with
  | [] => []
  | _ :: _ => omap (project startHour hourHeight viewDate) (computeLayouts events viewDate)
  end.

(** ** Effective intervals *)

(** Order by an integer key. *)
Definition byKey {A} (key : A → Z) (a b : A) : Prop := key a <= key b.

(** The effective interval [(start, end)] of an event that has a start. *)
Definition interval (e : CalendarEvent) : option (Z * Z) :=
  match start e with
  | Some s => Some (s, endOr s e)
  | None => None
  end.

Definition effStart (e : CalendarEvent) : Z := default 0 (start e).
Definition effEnd (e : CalendarEvent) : Z := endOr (effStart e) e.

(** [end >= start], the invariant the callers are asked to keep. *)
Definition wellFormed (e : CalendarEvent) : Prop :=
  match interval e with
  | Some (s, t) => s <= t
  | None => True
  end.

(** ** Clustering *)

(** The events the loops do not skip. *)
Definition started (l : list CalendarEvent) : list CalendarEvent :=
  filter (λ e, is_Some (start e)) l.

Definition flat (st : list (list CalendarEvent) * list CalendarEvent)
    : list CalendarEvent :=
  concat st.1 ++ st.2.

(** ** Column packing *)

Definition packState (viewDate : Z) (group : list CalendarEvent)
    : list CalendarEvent * list Layout :=
  fold_left (placeStep viewDate) group ([], []).

(** The layouts one cluster contributes, before the column count is
    written into them. *)
Definition packGroup (viewDate : Z) (group : list CalendarEvent) : list Layout :=
  (packState viewDate group).2.

(** [columns.length] once the cluster is packed. *)
Definition numColumns (viewDate : Z) (group : list CalendarEvent) : nat :=
  length (packState viewDate group).1.

(** [orderly e x]: an event [x] handled after [e] that starts at or after
    the end of [e] also starts at or after the start of [e].  It holds
    between any two events of a list sorted by start, and whenever [e]
    does not end before it starts. *)
Definition orderly (e x : CalendarEvent) : Prop :=
  effEnd e <= effStart x → effStart e <= effStart x.

(** What the packing loop keeps true; [p] is the part of the cluster
    handled so far. *)
Record PackInv (p : list CalendarEvent)
    (st : list CalendarEvent * list Layout) : Prop := {
  inv_cols : ∀ e, e ∈ st.1 → e ∈ p;
  inv_last : ∀ l, l ∈ st.2 →
    ∃ e, st.1 !! column l = Some e ∧
         (effEnd (event l) <= effStart e ∨ event l = e);
  inv_disjoint : ∀ i j li lj, (i < j)%nat →
    st.2 !! i = Some li → st.2 !! j = Some lj →
    column li = column lj →
    effEnd (event li) <= effStart (event lj)
}.

(** Facts about the layouts of one cluster that need no hypothesis. *)
Record PackShape (vd : Z) (p : list CalendarEvent)
    (st : list CalendarEvent * list Layout) : Prop := {
  shape_events : event <$> st.2 = started p;
  shape_new : ∀ l, l ∈ st.2 → l = newLayout vd (event l) (column l);
  shape_lt : ∀ l, l ∈ st.2 → (column l < length st.1)%nat;
  shape_used : ∀ c, (c < length st.1)%nat → ∃ l, l ∈ st.2 ∧ column l = c
}.

(** ** The cluster-wide column count *)

Definition lid (l : Layout) : string := id (event l).

Definition broadcast (n : nat) (ls : list Layout) (g : list CalendarEvent)
    : list Layout :=
  fold_left (λ ls ev, setTotal (id ev) n ls) g ls.

(** The layouts of one cluster as returned: every entry carries the
    number of columns of the cluster. *)
Definition clusterLayouts (vd : Z) (g : list CalendarEvent) : list Layout :=
  withTotal (numColumns vd g) <$> packGroup vd g.

(** ** Statements *)

(** No two events of one column of one cluster overlap: of two layouts of
    a cluster with the same column, the one placed later starts at or
    after the end of the one placed earlier. *)
Definition columnsDisjoint (evs : list CalendarEvent) (vd : Z) : Prop :=
  ∀ g i j li lj si ti sj tj,
    g ∈ buildGroups (sortedEvents evs) → (i < j)%nat →
    packGroup vd g !! i = Some li → packGroup vd g !! j = Some lj →
    column li = column lj →
    interval (event li) = Some (si, ti) →
    interval (event lj) = Some (sj, tj) →
    ti <= sj.

(** Event, column and column count of a layout. *)
Definition placement (l : Layout) : string * nat * nat :=
  (id (event l), column l, total l).

(** [e] has the effective interval from [s] to [t]. *)
Definition uniform (s t : Z) (e : CalendarEvent) : Prop :=
  interval e = Some (s, t).

(** The event with its default end written out. *)
Definition fillEnd (e : CalendarEvent) : CalendarEvent :=
  match start e, end_ e with
  | Some s, None => {| id := id e; start := Some s; end_ := Some (s + halfHour) |}
  | _, _ => e
  end.

(** Two lists of layouts with the same ids, columns and column counts. *)
Definition samePlacement (ls' ls : list Layout) : Prop :=
  placement <$> ls' = placement <$> ls.

(** The interval the code projects, lines 251-264, as a function of the
    event: [adjustedStartTime] is [new Date(viewDate)] when the event
    continues from the previous day, and [adjustedEndTime] is [viewDate]
    with [setHours(23, 59, 59, 999)] when it continues into the next. *)
Definition displayedStart (vd : Z) (e : CalendarEvent) (s : Z) : Z :=
  if isContinuedFromPreviousDay vd e then vd else s.

Definition displayedEnd (vd : Z) (e : CalendarEvent) (s : Z) : Z :=
  if continuesNextDay_ vd e then JsDate.setHours vd 23 59 59 999 else endOr s e.

(** ** The displayed interval in the words of the specification

    Stage 1: the effective interval ends at [end], or 30 minutes after the
    start when [end] is missing; an event is multi-day when the calendar
    dates of effective start and effective end differ; a multi-day event
    continues from a previous day when the date of its effective start is
    not [viewDay], and into a following day when the date of its effective
    end is not [viewDay].  The displayed start is then 00:00:00 of
    [viewDay], the displayed end 23:59:59.999 of [viewDay]. *)

Definition specEffectiveEnd (e : CalendarEvent) (s : Z) : Z :=
  match end_ e with
  | Some t => t
  | None => s + 30 * JsDate.msPerMinute
  end.

Definition specIsMultiDay (e : CalendarEvent) (s : Z) : bool :=
  negb (JsDate.dayOf s =? JsDate.dayOf (specEffectiveEnd e s)).

Definition specContinuesFromPreviousDay (viewDay : Z) (e : CalendarEvent) (s : Z)
    : bool :=
  specIsMultiDay e s && negb (JsDate.dayOf s =? JsDate.dayOf viewDay).


Definition specDisplayedStart (viewDay : Z) (e : CalendarEvent) (s : Z) : Z :=
  if specContinuesFromPreviousDay viewDay e s
  then JsDate.dayOf viewDay * JsDate.msPerDay
  else s.


(** ** Worked inputs *)

Definition timed (i : string) (s e : Z) : CalendarEvent :=
  {| id := i; start := Some s; end_ := Some e |}.

Definition openEnded (i : string) (s : Z) : CalendarEvent :=
  {| id := i; start := Some s; end_ := None |}.

Definition noStart (i : string) : CalendarEvent :=
  {| id := i; start := None; end_ := None |}.

(** An instant of 2023-06-02. *)
Definition june2 (h mi : Z) : Z := JsDate.at_ 2023 6 2 h mi.

Definition evA := timed "A" (june2 9 0) (june2 10 0).
Definition evB := timed "B" (june2 9 30) (june2 10 30).
Definition evC := timed "C" (june2 10 15) (june2 11 0).

(** Four events of one cluster given out of order, one of which ends
    before it starts. *)
Definition evLong := timed "L" (june2 9 0) (june2 12 0).
Definition evFirst := timed "F" (june2 9 0) (june2 10 0).
Definition evInverted := timed "I" (june2 10 0) (june2 9 30).
Definition evLate := timed "T" (june2 9 40) (june2 9 50).
Definition unsortedInput : list CalendarEvent :=
  [evLong; evFirst; evInverted; evLate].

(** The multi-day event of the clamping example, and the last
    millisecond of the day it is rendered on. *)
Definition evSpan : CalendarEvent :=
  timed "S" (JsDate.at_ 2023 6 1 22 0) (JsDate.at_ 2023 6 3 2 0).

Definition endOfJune2 : Z := june2 23 59 + 59 * 1000 + 999.


(** Touching events: D starts when A ends. *)
Definition evD := timed "D" (june2 10 0) (june2 11 0).

(** Two events with the same empty interval 10:00-10:00. *)
Definition evP := timed "P" (june2 10 0) (june2 10 0).
Definition evQ := timed "Q" (june2 10 0) (june2 10 0).

(** Three events with the same interval 10:00-10:30, one of them by the
    default duration. *)
Definition evX := timed "X" (june2 10 0) (june2 10 30).
Definition evY := openEnded "Y" (june2 10 0).
Definition evZ := timed "Z" (june2 10 0) (june2 10 30).

(** A reminder at 23:45 without end: its implicit half hour ends at 00:15
    of the next day. *)
Definition evNight := openEnded "R" (june2 23 45).

(** ** Further statements about the layout *)

(** [a] does not end before it starts, and [b] starts at or after the end
    of [a]. *)
Definition entirelyBefore (a b : CalendarEvent) : Prop :=
  effStart a <= effEnd a ∧ effEnd a <= effStart b.

(** [e] has a start and lasts some time. *)
Definition lasting (e : CalendarEvent) : Prop :=
  ∃ s t, interval e = Some (s, t) ∧ s < t.


(** The overlap test of the clustering loop, candidate [x] against [e]. *)
Definition overlapsEvent (x e : CalendarEvent) : Prop :=
  ∃ sx, start x = Some sx ∧ overlaps sx (endOr sx x) e = true.

(** Every event of [g] but the first overlaps an earlier event of [g]. *)
Definition connected (g : list CalendarEvent) : Prop :=
  ∀ k x, (0 < k)%nat → g !! k = Some x →
    ∃ j e, (j < k)%nat ∧ g !! j = Some e ∧ overlapsEvent x e.

(** The instant [t] lies in the effective interval of [e]. *)
Definition covers (t : Z) (e : CalendarEvent) : Prop :=
  effStart e <= t < effEnd e.


(** * The helpers next to the layout function *)

(** ** Days of an event *)

(** [d.setHours(0, 0, 0, 0)] and [d.setHours(23, 59, 59, 999)]. *)
Definition startOfDay (t : Z) : Z := JsDate.setHours t 0 0 0 0.
Definition endOfDay (t : Z) : Z := JsDate.setHours t 23 59 59 999.

(** The loop [while (currentDate <= endDate) { days.push(new
    Date(currentDate)); currentDate.setDate(currentDate.getDate() + 1) }]
    of [getEventDays]; [fuel] bounds the number of turns. *)
Fixpoint daysLoop (fuel : nat) (currentDate endDate : Z) : list Z :=
  match fuel with
  | O => []
  | S fuel' =>
      if currentDate <=? endDate
      then currentDate :: daysLoop fuel' (currentDate + JsDate.msPerDay) endDate
      else []
  end.

(** The number of turns after which [currentDate] has passed [endDate]. *)
Definition daysLoopTurns (currentDate endDate : Z) : nat :=
  Z.to_nat ((endDate - currentDate) / JsDate.msPerDay + 1).

(** [getEventDays], lines 288-312. *)
Definition getEventDays (ev : CalendarEvent) : list Z :=
  match start ev with
  | None => []
  | Some s =>
      let startDate := startOfDay s in
      match end_ ev with
      | None => [startDate]
      | Some e =>
          let endDate := startOfDay e in
          if JsDate.dayOf startDate =? JsDate.dayOf endDate
          then [startDate]
          else daysLoop (daysLoopTurns startDate endDate) startDate endDate
      end
  end.

(** The loop of [getMultiDayEventDays], which pushes
    [format(currentDate, "yyyy-MM-dd")]; the string is represented by the
    index of the day. *)
Fixpoint dayStringsLoop (fuel : nat) (currentDate endDate : Z) : list Z :=
  match fuel with
  | O => []
  | S fuel' =>
      if currentDate <=? endDate
      then JsDate.dayOf currentDate
             :: dayStringsLoop fuel' (currentDate + JsDate.msPerDay) endDate
      else []
  end.

(** [getMultiDayEventDays] of the year view, lines 360-380. *)
Definition getMultiDayEventDays (ev : CalendarEvent) : list Z :=
  match start ev, end_ ev with
  | Some s, Some e =>
      if JsDate.dayOf s =? JsDate.dayOf e
      then []
      else dayStringsLoop (daysLoopTurns s e) s e
  | _, _ => []
  end.

(** ** Rounding to a grid of minutes

    Both functions read and write the time value of the date only
    ([getTime], [setTime]); [date] is that time value.  The quotient is an
    exact rational and [Math.round] rounds half up; for every time value a
    [Date] can hold (at most 8.64e15 in absolute value) the double
    quotient has the same floor and the same rounding as the exact one. *)

Definition mathFloor (q : Q) : Z := Qfloor q.
Definition mathRound (q : Q) : Z := Qfloor (q + (1 # 2)).

(** [roundToNearestThirtyMinutes], lines 314-325. *)
Definition roundToNearestThirtyMinutes (date : Z) (roundDown : bool) : Z :=
  let coeff := 1000 * 60 * 30 in
  if roundDown
  then mathFloor (inject_Z date / inject_Z coeff) * coeff
  else mathRound (inject_Z date / inject_Z coeff) * coeff.

Inductive RoundDirection := down | nearest.

(** [roundToNearestFifteenMinutes], lines 604-615. *)
Definition roundToNearestFifteenMinutes (date : Z) (roundDirection : RoundDirection)
    : Z :=
  let coeff := 1000 * 60 * 15 in
  match roundDirection with
  | down => mathFloor (inject_Z date / inject_Z coeff) * coeff
  | nearest => mathRound (inject_Z date / inject_Z coeff) * coeff
  end.

(** ** The month view, lines 736-790 *)

(** [Array.prototype.findIndex]: the index of the first match, or -1. *)
Fixpoint findIndexFrom {A} (f : A → bool) (l : list A) (i : Z) : Z :=
  match l with
  | [] => -1
  | x :: l' => if f x then i else findIndexFrom f l' (i + 1)
  end.

Definition findIndex {A} (f : A → bool) (l : list A) : Z := findIndexFrom f l 0.

(** The test of [dayEvents]: the event has a start, on the day of the
    cell. *)
Definition startsOnDay (day : Z) (ev : CalendarEvent) : bool :=
  match start ev with
  | Some s => JsDate.dayOf s =? JsDate.dayOf day
  | None => false
  end.

Definition monthDayEvents (events : list CalendarEvent) (day : Z)
    : list CalendarEvent :=
  filter (λ ev, startsOnDay day ev) events.

(** [event.end && new Date(event.start).toDateString() !== new
    Date(event.end).toDateString()]; without start the first string is
    "Invalid Date", which differs from every date. *)
Definition endsOnAnotherDay (ev : CalendarEvent) : bool :=
  match end_ ev with
  | Some e =>
      match start ev with
      | Some s => negb (JsDate.dayOf s =? JsDate.dayOf e)
      | None => true
      end
  | None => false
  end.

Definition monthMultiDayEvents (dayEvents : list CalendarEvent)
    : list CalendarEvent :=
  filter (λ ev, endsOnAnotherDay ev) dayEvents.

Definition monthSingleDayEvents (dayEvents : list CalendarEvent)
    : list CalendarEvent :=
  filter (λ ev, negb (endsOnAnotherDay ev)) dayEvents.

Record DayPosition := mkDayPosition {
  isFirstDay : bool;
  isLastDay : bool;
  dayIndex : Z;
  totalDays : Z
}.

(** The [position] computed for a multi-day event in the cell of
    [cloneDay]. *)
Definition monthPosition (ev : CalendarEvent) (cloneDay : Z) : DayPosition :=
  let eventDays := getEventDays ev in
  let currentDayIndex :=
    findIndex (λ d, JsDate.dayOf d =? JsDate.dayOf cloneDay) eventDays in
  {| isFirstDay := currentDayIndex =? 0;
     isLastDay := currentDayIndex =? Z.of_nat (length eventDays) - 1;
     dayIndex := currentDayIndex;
     totalDays := Z.of_nat (length eventDays) |}.

(** ** The week, day and year views *)

Inductive EventType := task | reminder | arrangement | holiday.

(** An event as the views read it: the fields the layout reads, and
    [type]. *)
Record ViewEvent := mkViewEvent {
  fields :> CalendarEvent;
  type_ : EventType
}.

Definition isHoliday (ev : ViewEvent) : bool :=
  match type_ ev with
  | holiday => true
  | _ => false
  end.

(** [new Date("yyyy-MM-dd")]: a date-only string is midnight UTC of that
    day; [tz] is the offset of the local zone in milliseconds, local time
    being UTC plus [tz]. *)
Definition parseDay (tz day : Z) : Z := day * JsDate.msPerDay + tz.

(** [isEventActiveOnDay] of the week view, lines 936-952. *)
Definition isEventActiveOnDay (ev : CalendarEvent) (day : Z) : bool :=
  match start ev with
  | None => false
  | Some eventStart =>
      let eventEnd := endOr eventStart ev in
      let dayStart := startOfDay day in
      let dayEnd := endOfDay day in
      ((eventStart >=? dayStart) && (eventStart <=? dayEnd))
      || ((eventEnd >=? dayStart) && (eventEnd <=? dayEnd))
      || ((eventStart <=? dayStart) && (eventEnd >=? dayEnd))
  end.

(** The test of [allDayEvents] in the week view, lines 984-998. *)
Definition weekAllDayTest (dayItem : Z) (ev : ViewEvent) : bool :=
  match start ev with
  | None => false
  | Some s =>
      if isHoliday ev && (JsDate.dayOf s =? JsDate.dayOf dayItem) then true
      else if isMultiDayEvent ev && isEventActiveOnDay ev dayItem then true
      else false
  end.

(** The test of [dayEvents] in the week view, lines 1076-1099. *)
Definition weekTimedTest (tz dayItem : Z) (ev : ViewEvent) : bool :=
  match start ev with
  | None => false
  | Some s =>
      if isHoliday ev then false
      else
        match end_ ev with
        | Some e =>
            if negb (JsDate.dayOf s =? JsDate.dayOf e)
            then
              if (JsDate.dayOf s =? JsDate.dayOf dayItem)
                 || (JsDate.dayOf e =? JsDate.dayOf dayItem)
              then true
              else
                let currentDay := parseDay tz (JsDate.dayOf dayItem) in
                (currentDay >=? s) && (currentDay <=? e)
            else JsDate.dayOf s =? JsDate.dayOf dayItem
        | None => JsDate.dayOf s =? JsDate.dayOf dayItem
        end
  end.

(** The events handed to the layout: [dayEvents.filter(event => event &&
    event.start)]. *)
Definition withStart (evs : list ViewEvent) : list CalendarEvent :=
  fields <$> filter (λ ev : ViewEvent, is_Some (start ev)) evs.

Definition weekDayEvents (tz : Z) (events : list ViewEvent) (dayItem : Z)
    : list ViewEvent :=
  filter (λ ev, weekTimedTest tz dayItem ev) events.

(** The layouts of one day column of the week view, lines 1102-1107. *)
Definition weekLayouts (tz : Z) (events : list ViewEvent)
    (startHour : Z) (hourHeight : Q) (dayItem : Z) : list Placed :=
  calculateEventPositions (withStart (weekDayEvents tz events dayItem))
    startHour hourHeight dayItem.

(** The test of [allDayEvents] in the day view, lines 1264-1294. *)
Definition dayAllDayTest (tz currentDate : Z) (ev : ViewEvent) : bool :=
  match start ev with
  | None => false
  | Some s =>
      if isHoliday ev && (JsDate.dayOf s =? JsDate.dayOf currentDate) then true
      else
        match end_ ev with
        | Some e =>
            if negb (JsDate.dayOf s =? JsDate.dayOf e)
            then
              let currentDay :=
                startOfDay (parseDay tz (JsDate.dayOf currentDate)) in
              if (JsDate.dayOf s =? JsDate.dayOf currentDate)
                 || ((currentDay >=? s) && (currentDay <? e))
              then true
              else false
            else false
        | None => false
        end
  end.

(** The test of [timedEvents] in the day view, lines 1296-1312. *)
Definition dayTimedTest (currentDate : Z) (ev : ViewEvent) : bool :=
  match start ev with
  | None => false
  | Some s =>
      if isHoliday ev then false
      else
        match end_ ev with
        | Some e =>
            if negb (JsDate.dayOf s =? JsDate.dayOf e) then false
            else JsDate.dayOf s =? JsDate.dayOf currentDate
        | None => JsDate.dayOf s =? JsDate.dayOf currentDate
        end
  end.

Definition dayTimedEvents (events : list ViewEvent) (currentDate : Z)
    : list ViewEvent :=
  filter (λ ev, dayTimedTest currentDate ev) events.

(** The layouts of the day view, lines 1322-1327. *)
Definition dayLayouts (events : list ViewEvent)
    (startHour : Z) (hourHeight : Q) (currentDate : Z) : list Placed :=
  calculateEventPositions (withStart (dayTimedEvents events currentDate))
    startHour hourHeight currentDate.

(** The test of [eventsForDay] in the year view, lines 437-456; [date] is
    [new Date(year, index, cell)], a local midnight. *)
Definition yearDayTest (date : Z) (ev : CalendarEvent) : bool :=
  match start ev with
  | None => false
  | Some s =>
      if JsDate.dayOf s =? JsDate.dayOf date then true
      else
        match end_ ev with
        | Some e =>
            if negb (JsDate.dayOf s =? JsDate.dayOf e)
            then (date >=? s) && (date <=? e)
            else false
        | None => false
        end
  end.

(** Year, month and day of the month of the local calendar day with
    index [z] (proleptic Gregorian calendar), the inverse of
    [JsDate.daysFromCivil]; the month counts from 1. *)
Definition civilFromDays (z : Z) : Z * Z * Z :=
  let z := z + 719468 in
  let era := z / 146097 in
  let doe := z - era * 146097 in
  let yoe := (doe - doe / 1460 + doe / 36524 - doe / 146096) / 365 in
  let doy := doe - (365 * yoe + yoe / 4 - yoe / 100) in
  let mp := (5 * doy + 2) / 153 in
  let d := doy - (153 * mp + 2) / 5 + 1 in
  let m := if mp <? 10 then mp + 3 else mp - 9 in
  (yoe + era * 400 + (if m <=? 2 then 1 else 0), m, d).

(** [date.getFullYear()] and [date.getMonth()], the month counting from 0. *)
Definition getFullYear (t : Z) : Z := (civilFromDays (JsDate.dayOf t)).1.1.
Definition getMonth (t : Z) : Z := (civilFromDays (JsDate.dayOf t)).1.2 - 1.

(** [date.getFullYear() === year && date.getMonth() === index] *)
Definition inMonth (year index : Z) (t : Z) : bool :=
  (getFullYear t =? year) && (getMonth t =? index).

(** [new Date(year, index, cell)] for a cell of the month: the local
    midnight that begins the day. *)
Definition cellDate (year index cell : Z) : Z :=
  JsDate.daysFromCivil year (index + 1) cell * JsDate.msPerDay.

(** The test of [monthEvents] in the year view, lines 384-403: the event
    starts in the month, or has an end and one of the day strings of
    [getMultiDayEventDays], parsed again by [new Date(dateStr)], falls in
    the month. *)
Definition monthEventsTest (tz year index : Z) (ev : CalendarEvent) : bool :=
  match start ev with
  | None => false
  | Some s =>
      if inMonth year index s then true
      else
        match end_ ev with
        | Some _ =>
            existsb (λ dateStr, inMonth year index (parseDay tz dateStr))
              (getMultiDayEventDays ev)
        | None => false
        end
  end.

Definition monthEvents (tz year index : Z) (events : list CalendarEvent)
    : list CalendarEvent :=
  filter (λ ev, monthEventsTest tz year index ev) events.

(** [eventsForDay] of a cell of the month, lines 436-456: the events of
    the month that pass the test of the day. *)
Definition eventsForDay (tz year index date : Z) (events : list CalendarEvent)
    : list CalendarEvent :=
  filter (λ ev, yearDayTest date ev) (monthEvents tz year index events).

(** An event from 31 May 22:00 to 1 June 02:00. *)
Definition evOvernight : CalendarEvent :=
  timed "O" (JsDate.at_ 2023 5 31 22 0) (JsDate.at_ 2023 6 1 2 0).

(** Worked inputs of the views: the zone two hours east of Greenwich. *)
Definition twoHoursEast : Z := 2 * JsDate.msPerHour.
Definition viewSpan : ViewEvent := {| fields := evSpan; type_ := arrangement |}.
Definition viewA : ViewEvent := {| fields := evA; type_ := task |}.
Definition viewB : ViewEvent := {| fields := evB; type_ := reminder |}.

(** * Proofs *)

(** ** Effective intervals *)

Lemma interval_Some e s t :
  interval e = Some (s, t) ↔ start e = Some s ∧ t = endOr s e.
Proof.
  unfold interval. destruct (start e) as [s'|]; [|by split; [|intros []]].
  split; [by intros [= -> ->]|by intros [[= ->] ->]].
Qed.

Lemma interval_eff e s t :
  interval e = Some (s, t) → effStart e = s ∧ effEnd e = t.
Proof.
  rewrite interval_Some. unfold effEnd, effStart. intros [-> ->]. done.
Qed.

(** ** The sort *)

Section SortFacts.
Context {A : Type} (cmp : A → A → Z).

Lemma insertBack_perm x acc : insertBack cmp x acc ≡ₚ x :: acc.
Proof.
  induction acc as [|y ys IH]; simpl; [done|].
  destruct (0 <? cmp y x); [|done].
  rewrite IH. apply Permutation_swap.
Qed.

Lemma sort_fold_perm l acc :
  fold_left (λ acc x, insertBack cmp x acc) l acc ≡ₚ l ++ acc.
Proof.
  revert acc. induction l as [|x l IH]; intros acc; simpl; [done|].
  rewrite IH, insertBack_perm. by rewrite Permutation_middle.
Qed.

Lemma sort_perm l : sort cmp l ≡ₚ l.
Proof.
  unfold sort. rewrite reverse_Permutation, sort_fold_perm.
  by rewrite app_nil_r.
Qed.

(** Elements that all compare [<= 0] with their predecessor stay put. *)
Lemma insertBack_keep x y ys :
  cmp y x <= 0 → insertBack cmp x (y :: ys) = x :: y :: ys.
Proof.
  intros H. simpl. destruct (0 <? cmp y x) eqn:E; [|done].
  apply Z.ltb_lt in E. lia.
Qed.

(** A key on which the comparator is the difference (as on events that
    all have a start). *)
Context (key : A → Z).

Lemma insertBack_sorted x acc :
  (∀ y, y ∈ acc → cmp y x = key y - key x) →
  StronglySorted (flip (byKey key)) acc →
  StronglySorted (flip (byKey key)) (insertBack cmp x acc).
Proof.
  induction acc as [|y ys IH]; intros Hc Hs; simpl.
  - repeat constructor.
  - apply StronglySorted_cons in Hs as [Hy Hs].
    assert (cmp y x = key y - key x) as Hyx by (apply Hc; left).
    destruct (0 <? cmp y x) eqn:E.
    + apply Z.ltb_lt in E. apply StronglySorted_cons. split.
      * rewrite insertBack_perm. constructor; [|done].
        unfold flip, byKey. lia.
      * apply IH; [|done]. intros z Hz. apply Hc. by right.
    + apply Z.ltb_ge in E. apply StronglySorted_cons. split.
      * constructor; [unfold flip, byKey; lia|].
        eapply Forall_impl; [exact Hy|].
        unfold flip, byKey. intros z Hz. lia.
      * apply StronglySorted_cons. done.
Qed.

Lemma StronglySorted_rev_flip (R : relation A) l :
  StronglySorted (flip R) l → StronglySorted R (reverse l).
Proof.
  induction l as [|x l IH]; intros Hs; [constructor|].
  rewrite reverse_cons.
  apply StronglySorted_cons in Hs as [Hx Hs].
  apply StronglySorted_app. split_and!.
  - intros a b Ha Hb. apply list_elem_of_singleton in Hb as ->.
    rewrite Forall_forall in Hx. rewrite elem_of_reverse in Ha.
    exact (Hx a Ha).
  - by apply IH.
  - repeat constructor.
Qed.

Lemma sort_sorted l :
  (∀ a b, a ∈ l → b ∈ l → cmp a b = key a - key b) →
  StronglySorted (byKey key) (sort cmp l).
Proof.
  intros Hc. unfold sort. apply StronglySorted_rev_flip.
  assert (∀ acc l',
    (∀ a b, a ∈ l' ++ acc → b ∈ l' ++ acc → cmp a b = key a - key b) →
    StronglySorted (flip (byKey key)) acc →
    StronglySorted (flip (byKey key))
      (fold_left (λ acc x, insertBack cmp x acc) l' acc)) as Hgen.
  { intros acc l'. revert acc.
    induction l' as [|x l' IH]; intros acc Hcmp Hs; simpl; [done|].
    apply IH.
    - assert (∀ a, a ∈ l' ++ insertBack cmp x acc → a ∈ (x :: l') ++ acc) as Hin.
      { intros a. rewrite !elem_of_app, insertBack_perm, !elem_of_cons. tauto. }
      intros a b Ha Hb. apply Hcmp; by apply Hin.
    - apply insertBack_sorted; [|done].
      intros y Hy. apply Hcmp; rewrite elem_of_app, ?elem_of_cons; tauto. }
  apply Hgen; [|constructor].
  intros a b. rewrite app_nil_r. apply Hc.
Qed.
End SortFacts.

(** ** Clustering *)

Lemma groupStep_flat st e : flat (groupStep st e) = flat st ++ started [e].
Proof.
  unfold groupStep, started, flat. destruct st as [gs cur]; simpl.
  destruct (start e) as [s|] eqn:Hs.
  - rewrite filter_cons_True by (rewrite Hs; by eexists).
    rewrite filter_nil.
    destruct cur as [|c cur]; simpl.
    + by rewrite app_nil_r.
    + destruct (_ || _); simpl.
      * by rewrite <- !app_assoc.
      * rewrite concat_app. simpl. by rewrite app_nil_r.
  - rewrite filter_cons_False by (rewrite Hs; by intros [? ?]).
    rewrite filter_nil. by rewrite app_nil_r.
Qed.

Lemma groupStep_fold_flat l st :
  flat (fold_left groupStep l st) = flat st ++ started l.
Proof.
  revert st. induction l as [|e l IH]; intros st; simpl.
  - unfold started. rewrite filter_nil. by rewrite app_nil_r.
  - rewrite IH, groupStep_flat. unfold started.
    rewrite <- app_assoc. f_equal.
    by rewrite <- filter_app.
Qed.

Lemma closeGroups_concat st : concat (closeGroups st) = flat st.
Proof.
  unfold closeGroups, flat. destruct st as [gs [|c cur]]; simpl.
  - by rewrite app_nil_r.
  - rewrite concat_app. simpl. by rewrite app_nil_r.
Qed.

(** The clusters, laid end to end, are the sorted events that have a
    start, in the sorted order. *)
Lemma buildGroups_concat l : concat (buildGroups l) = started l.
Proof.
  unfold buildGroups. by rewrite closeGroups_concat, groupStep_fold_flat.
Qed.

Lemma elem_of_concat {A} (x : A) (g : list A) (gs : list (list A)) :
  g ∈ gs → x ∈ g → x ∈ concat gs.
Proof.
  induction gs as [|h gs IH]; intros Hg Hx; [by apply elem_of_nil in Hg|].
  simpl. apply elem_of_app. apply elem_of_cons in Hg as [->|Hg]; auto.
Qed.

Lemma buildGroups_started l g e :
  g ∈ buildGroups l → e ∈ g → is_Some (start e) ∧ e ∈ l.
Proof.
  intros Hg He.
  assert (e ∈ started l) as Hin.
  { rewrite <- buildGroups_concat. by eapply elem_of_concat. }
  unfold started in Hin. by apply list_elem_of_filter in Hin.
Qed.

Lemma StronglySorted_concat {A} (R : relation A) (g : list A) gs :
  g ∈ gs → StronglySorted R (concat gs) → StronglySorted R g.
Proof.
  induction gs as [|h gs IH]; intros Hg Hs; [by apply elem_of_nil in Hg|].
  simpl in Hs. apply StronglySorted_app in Hs as (_ & Hh & Hrest).
  apply elem_of_cons in Hg as [->|Hg]; auto.
Qed.

Lemma StronglySorted_filter {A} (R : relation A) (P : A → Prop)
    `{∀ x, Decision (P x)} (l : list A) :
  StronglySorted R l → StronglySorted R (filter P l).
Proof.
  induction 1 as [|x l Hs IH Hx]; [constructor|].
  destruct (decide (P x)).
  - rewrite filter_cons_True by done. constructor; [done|].
    rewrite Forall_forall in *. intros y Hy.
    apply list_elem_of_filter in Hy as [_ Hy]. auto.
  - by rewrite filter_cons_False.
Qed.

(** ** Column packing *)

Lemma findColumn_Some s cols base c :
  findColumn s cols base = Some c →
  ∃ e, (base ≤ c)%nat ∧ cols !! (c - base)%nat = Some e ∧
       is_Some (start e) ∧ effEnd e <= s.
Proof.
  revert base. induction cols as [|e cols IH]; intros base; simpl; [done|].
  destruct (start e) as [ls|] eqn:Hls.
  - destruct (s >=? endOr ls e) eqn:E.
    + intros [= <-]. exists e. rewrite Nat.sub_diag.
      split; [lia|]. split; [done|]. split; [by rewrite Hls|].
      unfold effEnd, effStart. rewrite Hls. simpl. lia.
    + intros (e' & Hb & Hl & Hrest)%IH. exists e'. split; [lia|].
      replace (c - base)%nat with (S (c - S base)) by lia. done.
  - intros (e' & Hb & Hl & Hrest)%IH. exists e'. split; [lia|].
    replace (c - base)%nat with (S (c - S base)) by lia. done.
Qed.


Lemma findColumn_None s cols base e :
  findColumn s cols base = None → e ∈ cols → is_Some (start e) → s < effEnd e.
Proof.
  revert base. induction cols as [|e0 cols IH]; intros base; simpl.
  - intros _ H. by apply elem_of_nil in H.
  - intros Hf [->|Hin]%elem_of_cons Hs.
    + destruct Hs as [ls Hls]. rewrite Hls in Hf.
      unfold effEnd, effStart. rewrite Hls. simpl.
      destruct (s >=? endOr ls e0) eqn:E; [done|]. lia.
    + destruct (start e0) as [ls|].
      * destruct (s >=? endOr ls e0); [done|]. eauto.
      * eauto.
Qed.


Lemma lookup_snoc_cases {A} (l : list A) (x y : A) i :
  (l ++ [x]) !! i = Some y →
  ((i < length l)%nat ∧ l !! i = Some y) ∨ (i = length l ∧ y = x).
Proof.
  intros H. apply lookup_snoc_Some in H as [?|[? ?]]; auto.
Qed.

Lemma PackInv_step vd p st x :
  PackInv p st → Forall (λ e, orderly e x) p →
  PackInv (p ++ [x]) (placeStep vd st x).
Proof.
  intros [Hc Hl Hd] Hord. destruct st as [cols ls]. simpl in *.
  unfold placeStep. simpl.
  destruct (start x) as [s|] eqn:Hs; simpl.
  2:{ split; simpl; auto. intros e He. apply elem_of_app. auto. }
  assert (effStart x = s) as Hsx by (unfold effStart; by rewrite Hs).
  rewrite Forall_forall in Hord.
  destruct (findColumn s cols 0) as [c|] eqn:Hf; simpl.
  - apply findColumn_Some in Hf as (e & _ & Hce & _ & Hend).
    rewrite Nat.sub_0_r in Hce.
    assert (c < length cols)%nat as Hlt by (by eapply lookup_lt_Some).
    assert (∀ l, l ∈ ls → column l = c → effEnd (event l) <= effStart x)
      as Hfree.
    { intros l Hin Hcol. destruct (Hl l Hin) as (e' & He' & Hor).
      rewrite Hcol, Hce in He'. injection He' as <-.
      destruct Hor as [Hor| ->]; [|lia].
      assert (orderly e x) as Ho.
      { apply Hord, Hc. apply list_elem_of_lookup. eauto. }
      unfold orderly in Ho. lia. }
    split; simpl.
    + intros e' He'. apply elem_of_app.
      apply list_elem_of_lookup in He' as [i Hi].
      destruct (decide (i = c)) as [->|Hne].
      * rewrite list_lookup_insert_eq in Hi by done.
        injection Hi as <-. right. by apply list_elem_of_singleton.
      * rewrite list_lookup_insert_ne in Hi by done.
        left. apply Hc. apply list_elem_of_lookup. eauto.
    + intros l [Hin| ->%list_elem_of_singleton]%elem_of_app.
      * destruct (decide (column l = c)) as [Heq|Hne].
        -- exists x. rewrite Heq, list_lookup_insert_eq by done. auto.
        -- destruct (Hl l Hin) as (e' & He' & Hor). exists e'.
           rewrite list_lookup_insert_ne by done. auto.
      * exists x. simpl. rewrite list_lookup_insert_eq by done. auto.
    + intros i j li lj Hij Hi Hj Hcol.
      apply lookup_snoc_cases in Hj as [[Hjl Hj]|[-> ->]].
      * rewrite lookup_app_l in Hi by lia. eauto.
      * rewrite lookup_app_l in Hi by lia. simpl in *.
        apply Hfree; [|done]. apply list_elem_of_lookup. eauto.
  - split; simpl.
    + intros e. rewrite !elem_of_app. intros [?|?]; auto.
    + intros l [Hin| ->%list_elem_of_singleton]%elem_of_app.
      * destruct (Hl l Hin) as (e' & He' & Hor). exists e'.
        split; [|done]. rewrite lookup_app_l; [done|].
        by eapply lookup_lt_Some.
      * exists x. simpl. split; [|auto].
        rewrite lookup_app_r by lia. by rewrite Nat.sub_diag.
    + intros i j li lj Hij Hi Hj Hcol.
      apply lookup_snoc_cases in Hj as [[Hjl Hj]|[-> ->]].
      * rewrite lookup_app_l in Hi by lia. eauto.
      * rewrite lookup_app_l in Hi by lia. simpl in *.
        destruct (Hl li) as (e' & He' & _).
        { apply list_elem_of_lookup. eauto. }
        apply lookup_lt_Some in He'. lia.
Qed.

Lemma packState_snoc vd g x :
  packState vd (g ++ [x]) = placeStep vd (packState vd g) x.
Proof. unfold packState. by rewrite fold_left_app. Qed.

Lemma packState_inv vd g :
  StronglySorted orderly g → PackInv g (packState vd g).
Proof.
  induction g as [|x g IH] using rev_ind; intros Hs.
  - split; simpl; intros *.
    + done.
    + by intros ?%elem_of_nil.
    + by rewrite lookup_nil.
  - rewrite packState_snoc.
    apply StronglySorted_app in Hs as (Hgx & Hg & _).
    apply PackInv_step; [auto|].
    apply Forall_forall. intros e He. apply Hgx; [done|].
    by apply list_elem_of_singleton.
Qed.

(** Within one cluster, an event placed later in a column starts at or
    after the end of every event placed earlier in that column. *)
Lemma packGroup_disjoint vd g i j li lj :
  StronglySorted orderly g → (i < j)%nat →
  packGroup vd g !! i = Some li → packGroup vd g !! j = Some lj →
  column li = column lj →
  effEnd (event li) <= effStart (event lj).
Proof.
  intros Hs. apply (inv_disjoint _ _ (packState_inv vd g Hs)).
Qed.

Lemma orderly_sorted e x : effStart e <= effStart x → orderly e x.
Proof. unfold orderly. lia. Qed.

Lemma orderly_wellFormed e x :
  is_Some (start e) ∧ wellFormed e → orderly e x.
Proof.
  intros [[s Hs] Hwf]. unfold orderly, wellFormed, interval in *.
  unfold effEnd, effStart. rewrite Hs in *. simpl. lia.
Qed.

Lemma StronglySorted_Forall_l {A} (R : relation A) (P : A → Prop) l :
  (∀ a b, P a → R a b) → Forall P l → StronglySorted R l.
Proof.
  intros HR. induction 1 as [|x l Hx Hl IH]; constructor; [done|].
  apply Forall_forall. auto.
Qed.

(** The packing loop only appends to [layouts]; what it appends does not
    depend on what is already there. *)
Lemma placeStep_append vd cols ls x :
  placeStep vd (cols, ls) x =
    ((placeStep vd (cols, []) x).1, ls ++ (placeStep vd (cols, []) x).2).
Proof.
  unfold placeStep. simpl. destruct (start x); simpl.
  - destruct (findColumn _ _ _); simpl; done.
  - by rewrite app_nil_r.
Qed.

Lemma pack_append vd g cols ls :
  fold_left (placeStep vd) g (cols, ls) =
    ((fold_left (placeStep vd) g (cols, [])).1,
     ls ++ (fold_left (placeStep vd) g (cols, [])).2).
Proof.
  revert cols ls. induction g as [|x g IH]; intros cols ls; simpl.
  - by rewrite app_nil_r.
  - rewrite placeStep_append.
    destruct (placeStep vd (cols, []) x) as [cols' ls'] eqn:E. simpl.
    rewrite IH. rewrite (IH cols' ls'). simpl. by rewrite app_assoc.
Qed.

Lemma started_snoc_Some p x s :
  start x = Some s → started (p ++ [x]) = started p ++ [x].
Proof.
  intros Hs. unfold started. rewrite filter_app. f_equal.
  rewrite filter_cons_True by (rewrite Hs; by eexists). done.
Qed.

Lemma started_snoc_None p x :
  start x = None → started (p ++ [x]) = started p.
Proof.
  intros Hs. unfold started. rewrite filter_app.
  rewrite filter_cons_False by (rewrite Hs; by intros [? ?]).
  rewrite filter_nil. by rewrite app_nil_r.
Qed.

Lemma PackShape_step vd p st x :
  PackShape vd p st → PackShape vd (p ++ [x]) (placeStep vd st x).
Proof.
  intros [He Hn Hlt Hu]. destruct st as [cols ls]. simpl in *.
  unfold placeStep. simpl.
  destruct (start x) as [s|] eqn:Hs; simpl.
  2:{ split; simpl; auto. by rewrite started_snoc_None. }
  destruct (findColumn s cols 0) as [c|] eqn:Hf; simpl.
  - apply findColumn_Some in Hf as (e & _ & Hce & _).
    rewrite Nat.sub_0_r in Hce. apply lookup_lt_Some in Hce.
    split; simpl.
    + rewrite fmap_app, (started_snoc_Some _ _ _ Hs). simpl. by f_equal.
    + intros l [Hin| ->%list_elem_of_singleton]%elem_of_app; auto.
    + intros l. rewrite length_insert.
      intros [Hin| ->%list_elem_of_singleton]%elem_of_app; auto.
    + intros c'. rewrite length_insert. intros Hc'.
      destruct (Hu c' Hc') as (l & Hl & Hcl). exists l.
      split; [|done]. apply elem_of_app. auto.
  - split; simpl.
    + rewrite fmap_app, (started_snoc_Some _ _ _ Hs). simpl. by f_equal.
    + intros l [Hin| ->%list_elem_of_singleton]%elem_of_app; auto.
    + intros l. rewrite length_app. simpl.
      intros [Hin| ->%list_elem_of_singleton]%elem_of_app.
      * specialize (Hlt l Hin). lia.
      * simpl. lia.
    + intros c'. rewrite length_app. simpl. intros Hc'.
      destruct (decide (c' = length cols)) as [->|Hne].
      * exists (newLayout vd x (length cols)). split; [|done].
        apply elem_of_app. right. by apply list_elem_of_singleton.
      * destruct (Hu c') as (l & Hl & Hcl); [lia|]. exists l.
        split; [|done]. apply elem_of_app. auto.
Qed.

Lemma packState_shape vd g : PackShape vd g (packState vd g).
Proof.
  induction g as [|x g IH] using rev_ind.
  - split; simpl; intros *; try by intros ?%elem_of_nil.
    + done.
    + lia.
  - rewrite packState_snoc. by apply PackShape_step.
Qed.

Lemma started_all g : Forall (λ e, is_Some (start e)) g → started g = g.
Proof.
  induction 1 as [|x g Hx Hg IH]; [done|].
  unfold started in *. rewrite filter_cons_True by done. by f_equal.
Qed.

(** ** Writing the column count *)

(** Writing a total touches nothing but totals. *)
Lemma setTotal_erase eid n ls :
  withTotal 0 <$> setTotal eid n ls = withTotal 0 <$> ls.
Proof.
  induction ls as [|l ls IH]; csimpl; [done|].
  destruct (String.eqb _ _); csimpl; [done|]. by rewrite IH.
Qed.

Lemma setTotal_fresh eid n ls1 ls2 :
  eid ∉ lid <$> ls1 → setTotal eid n (ls1 ++ ls2) = ls1 ++ setTotal eid n ls2.
Proof.
  induction ls1 as [|l ls1 IH]; simpl; intros Hnot; [done|].
  apply not_elem_of_cons in Hnot as [Hne Hnot].
  destruct (String.eqb (id (event l)) eid) eqn:E.
  - apply String.eqb_eq in E. by destruct Hne.
  - by rewrite IH.
Qed.

Lemma setTotal_hit n l ls : setTotal (lid l) n (l :: ls) = withTotal n l :: ls.
Proof. simpl. unfold lid. by rewrite String.eqb_refl. Qed.

Lemma broadcast_erase n g ls :
  withTotal 0 <$> broadcast n ls g = withTotal 0 <$> ls.
Proof.
  unfold broadcast. revert ls. induction g as [|e g IH]; intros ls; simpl; [done|].
  by rewrite IH, setTotal_erase.
Qed.

Lemma broadcast_distinct n acc done rest :
  NoDup (lid <$> acc ++ done ++ rest) →
  broadcast n (acc ++ (withTotal n <$> done) ++ rest) (event <$> rest) =
    acc ++ (withTotal n <$> done ++ rest).
Proof.
  unfold broadcast. revert done.
  induction rest as [|r rest IH]; intros done Hnd; csimpl.
  - by rewrite !app_nil_r.
  - rewrite !fmap_app, fmap_cons in Hnd.
    apply NoDup_app in Hnd as (Hacc & Hsep & Hnd).
    apply NoDup_app in Hnd as (Hdone & Hsep' & Hrest).
    change (id (event r)) with (lid r).
    rewrite setTotal_fresh.
    2:{ intros Hin. apply (Hsep _ Hin). apply elem_of_app. right. left. }
    rewrite setTotal_fresh.
    2:{ rewrite <- list_fmap_compose.
        intros Hin. apply (Hsep' (lid r)); [|left].
        erewrite list_fmap_ext; [exact Hin|]. done. }
    rewrite setTotal_hit.
    specialize (IH (done ++ [r])).
    rewrite !fmap_app in IH. simpl in IH. rewrite <- !app_assoc in IH.
    simpl in IH. rewrite IH.
    + by rewrite !fmap_app, fmap_cons.
    + apply NoDup_app. split_and!; [done|done|].
      by apply NoDup_app.
Qed.

Lemma processGroup_eq vd acc g :
  processGroup vd acc g = broadcast (numColumns vd g) (acc ++ packGroup vd g) g.
Proof.
  unfold processGroup, broadcast, numColumns, packGroup, packState.
  by rewrite pack_append.
Qed.

Lemma fmap_fixed {A} (f : A → A) (l : list A) :
  (∀ x, x ∈ l → f x = x) → f <$> l = l.
Proof.
  induction l as [|x l IH]; intros H; csimpl; [done|].
  rewrite H by left. rewrite IH; [done|]. intros y Hy. apply H. by right.
Qed.

Lemma packGroup_total0 vd g : withTotal 0 <$> packGroup vd g = packGroup vd g.
Proof.
  apply fmap_fixed. intros l Hl.
  rewrite (shape_new _ _ _ (packState_shape vd g) l Hl). done.
Qed.

Lemma packGroup_events vd g :
  Forall (λ e, is_Some (start e)) g → event <$> packGroup vd g = g.
Proof.
  intros H. unfold packGroup.
  rewrite (shape_events _ _ _ (packState_shape vd g)). by apply started_all.
Qed.

Lemma processGroups_erase vd gs acc :
  withTotal 0 <$> fold_left (processGroup vd) gs acc =
    (withTotal 0 <$> acc) ++ concat (packGroup vd <$> gs).
Proof.
  revert acc. induction gs as [|g gs IH]; intros acc; csimpl.
  - by rewrite app_nil_r.
  - rewrite IH, processGroup_eq, broadcast_erase, fmap_app, packGroup_total0.
    by rewrite <- app_assoc.
Qed.

(** Whatever the ids, the events and columns of the result are those of
    the clusters packed one after the other. *)
Lemma computeLayouts_erase evs vd :
  withTotal 0 <$> computeLayouts evs vd =
    concat (packGroup vd <$> buildGroups (sortedEvents evs)).
Proof. unfold computeLayouts. by rewrite processGroups_erase. Qed.

Lemma broadcast_cluster n acc pk :
  NoDup ((lid <$> acc) ++ (lid <$> pk)) →
  broadcast n (acc ++ pk) (event <$> pk) = acc ++ (withTotal n <$> pk).
Proof.
  intros Hnd. apply (broadcast_distinct n acc [] pk).
  simpl. by rewrite fmap_app.
Qed.

Lemma processGroups_distinct vd gs acc :
  Forall (Forall (λ e, is_Some (start e))) gs →
  NoDup ((lid <$> acc) ++ (id <$> concat gs)) →
  fold_left (processGroup vd) gs acc =
    acc ++ concat (clusterLayouts vd <$> gs).
Proof.
  revert acc. induction gs as [|g gs IH]; intros acc Hst Hnd; csimpl.
  - by rewrite app_nil_r.
  - apply Forall_cons in Hst as [Hg Hgs].
    pose proof (packGroup_events vd g Hg) as Hev.
    assert (lid <$> packGroup vd g = id <$> g) as Hids.
    { rewrite <- Hev at 2. by rewrite <- list_fmap_compose. }
    csimpl in Hnd. rewrite fmap_app in Hnd.
    rewrite processGroup_eq.
    assert (broadcast (numColumns vd g) (acc ++ packGroup vd g) g =
            acc ++ clusterLayouts vd g) as ->.
    { unfold clusterLayouts. revert Hev Hids.
      generalize (packGroup vd g). intros pk <- Hids.
      apply broadcast_cluster. rewrite Hids.
      rewrite app_assoc in Hnd. by apply NoDup_app in Hnd as (? & _ & _). }
    rewrite IH; [|done|].
    + by rewrite <- app_assoc.
    + rewrite fmap_app, <- app_assoc.
      replace (lid <$> clusterLayouts vd g) with (id <$> g); [done|].
      unfold clusterLayouts.
      rewrite <- Hids, <- list_fmap_compose. by apply list_fmap_ext.
Qed.

Lemma sortedEvents_perm evs : sortedEvents evs ≡ₚ evs.
Proof. apply sort_perm. Qed.

Lemma buildGroups_all_started l :
  Forall (Forall (λ e, is_Some (start e))) (buildGroups l).
Proof.
  apply Forall_forall. intros g Hg. apply Forall_forall. intros e He.
  by destruct (buildGroups_started l g e Hg He).
Qed.

Lemma computeLayouts_distinct evs vd :
  NoDup (id <$> evs) →
  computeLayouts evs vd =
    concat (clusterLayouts vd <$> buildGroups (sortedEvents evs)).
Proof.
  intros Hnd. unfold computeLayouts.
  rewrite processGroups_distinct; [done|apply buildGroups_all_started|].
  simpl. rewrite buildGroups_concat.
  eapply sublist_NoDup; [|apply fmap_sublist, sublist_filter].
  by rewrite sortedEvents_perm.
Qed.

(** ** Columns do not overlap *)

Lemma StronglySorted_impl {A} (R1 R2 : relation A) l :
  (∀ a b, R1 a b → R2 a b) → StronglySorted R1 l → StronglySorted R2 l.
Proof.
  intros HR. induction 1 as [|x l Hs IH Hx]; constructor; [done|].
  eapply Forall_impl; [exact Hx|]. auto.
Qed.

Lemma compareStart_started a b :
  is_Some (start a) → is_Some (start b) →
  compareStart a b = effStart a - effStart b.
Proof.
  intros [sa Ha] [sb Hb]. unfold compareStart, effStart. by rewrite Ha, Hb.
Qed.

(** With every start present the comparator is consistent and the events
    come out ordered by start. *)
Lemma sortedEvents_sorted evs :
  Forall (λ e, is_Some (start e)) evs →
  StronglySorted (byKey effStart) (sortedEvents evs).
Proof.
  intros Hall. apply sort_sorted. intros a b Ha Hb.
  rewrite Forall_forall in Hall. apply compareStart_started; auto.
Qed.

Lemma groups_orderly evs g :
  Forall (λ e, is_Some (start e)) evs ∨ Forall wellFormed evs →
  g ∈ buildGroups (sortedEvents evs) → StronglySorted orderly g.
Proof.
  intros [Hall|Hwf] Hg.
  - apply (StronglySorted_concat _ _ _ Hg). rewrite buildGroups_concat.
    apply StronglySorted_filter.
    eapply StronglySorted_impl; [|by apply sortedEvents_sorted].
    intros a b. apply orderly_sorted.
  - apply StronglySorted_Forall_l
      with (P := λ e, is_Some (start e) ∧ wellFormed e).
    + intros a b. apply orderly_wellFormed.
    + apply Forall_forall. intros e He.
      destruct (buildGroups_started _ _ _ Hg He) as [Hs Hin].
      rewrite sortedEvents_perm in Hin.
      rewrite Forall_forall in Hwf. auto.
Qed.

(** C1.  The events are those the function receives: every one has a
    start, both calls passing [events.filter(event => event &&
    event.start)].  The result is then the clusters packed one after the
    other, and in every cluster two layouts with the same column do not
    overlap: the one placed later starts at or after the end of the one
    placed earlier. *)
Theorem C1_columns_disjoint (evs : list CalendarEvent) (vd : Z) :
  Forall (λ e, is_Some (start e)) evs →
  withTotal 0 <$> computeLayouts evs vd =
    concat (packGroup vd <$> buildGroups (sortedEvents evs)) ∧
  columnsDisjoint evs vd.
Proof.
  intros Hin. split; [apply computeLayouts_erase|].
  intros g i j li lj si ti sj tj Hg Hij Hi Hj Hcol Hli Hlj.
  apply interval_eff in Hli as [_ <-]. apply interval_eff in Hlj as [<- _].
  eapply packGroup_disjoint; eauto using groups_orderly.
Qed.

Lemma C1_columns_disjoint_witness :
  placement <$> computeLayouts unsortedInput (june2 0 0) =
    [("L", 0%nat, 3%nat); ("F", 1%nat, 3%nat);
     ("T", 2%nat, 3%nat); ("I", 1%nat, 3%nat)] ∧
  columnsDisjoint unsortedInput (june2 0 0).
Proof.
  split; [by vm_compute|].
  refine (proj2 (C1_columns_disjoint unsortedInput (june2 0 0) _)).
  repeat constructor; by eexists.
Defined.

(** ** The column count is cluster-wide *)

(** C2.  When the event ids are pairwise distinct, the result is the
    layouts of the clusters one after the other, every layout of a cluster
    carries the number of columns opened in that cluster, and that number
    is exactly the number of column indices in use in the cluster. *)
Theorem C2_total_is_cluster_wide (evs : list CalendarEvent) (vd : Z) :
  NoDup (id <$> evs) →
  computeLayouts evs vd =
    concat (clusterLayouts vd <$> buildGroups (sortedEvents evs)) ∧
  ∀ g, g ∈ buildGroups (sortedEvents evs) →
    (∀ l, l ∈ clusterLayouts vd g → total l = numColumns vd g) ∧
    (∀ c, (c < numColumns vd g)%nat ↔
          ∃ l, l ∈ clusterLayouts vd g ∧ column l = c).
Proof.
  intros Hnd. split; [by apply computeLayouts_distinct|].
  intros g _. pose proof (packState_shape vd g) as [_ _ Hlt Hused].
  unfold clusterLayouts, numColumns, packGroup. split.
  - intros l (l' & -> & _)%list_elem_of_fmap. done.
  - intros c. split.
    + intros (l & Hl & Hc)%Hused. exists (withTotal (numColumns vd g) l).
      split; [|done]. by apply list_elem_of_fmap_2.
    + intros (l & (l' & -> & Hl')%list_elem_of_fmap & <-).
      exact (Hlt l' Hl').
Qed.

Lemma C2_total_is_cluster_wide_witness :
  computeLayouts [evA; evB; evC] (june2 0 0) =
    concat (clusterLayouts (june2 0 0) <$>
              buildGroups (sortedEvents [evA; evB; evC])).
Proof.
  refine (proj1 (C2_total_is_cluster_wide [evA; evB; evC] (june2 0 0) _)).
  compute_done.
Defined.

(** ** The chain A, B, C *)

(** C3.  B overlaps A and C overlaps B, while C does not overlap A.
    Whatever the order in which A (09:00-10:00), B (09:30-10:30) and
    C (10:15-11:00) are given and whatever the day rendered, the three
    form one cluster, A and C get column 0, B gets column 1, and all three
    carry a column count of 2. *)
Theorem C3_partial_chain (vd : Z) :
  overlaps (june2 9 30) (june2 10 30) evA = true ∧
  overlaps (june2 10 15) (june2 11 0) evB = true ∧
  overlaps (june2 10 15) (june2 11 0) evA = false ∧
  Forall (λ evs,
    buildGroups (sortedEvents evs) = [[evA; evB; evC]] ∧
    placement <$> computeLayouts evs vd =
      [("A", 0%nat, 2%nat); ("B", 1%nat, 2%nat); ("C", 0%nat, 2%nat)])
    (permutations [evA; evB; evC]).
Proof.
  assert (permutations [evA; evB; evC] =
          [[evA; evB; evC]; [evB; evA; evC]; [evB; evC; evA];
           [evA; evC; evB]; [evC; evA; evB]; [evC; evB; evA]]) as ->
    by reflexivity.
  split_and!; [by vm_compute..|].
  repeat (apply Forall_cons; split; [split; vm_compute; reflexivity|]).
  by apply Forall_nil.
Qed.

(** ** Flags and pixel projection *)

Lemma elem_of_concat_inv {A} (x : A) (gs : list (list A)) :
  x ∈ concat gs → ∃ g, g ∈ gs ∧ x ∈ g.
Proof.
  induction gs as [|h gs IH]; simpl; [by intros ?%elem_of_nil|].
  intros [Hx|Hx]%elem_of_app.
  - exists h. split; [left|done].
  - destruct (IH Hx) as (g & Hg & Hxg). exists g. split; [by right|done].
Qed.

(** Every layout of the result belongs to an event with a start and
    carries the flags of that event. *)
Lemma computeLayouts_flags evs vd l :
  l ∈ computeLayouts evs vd →
  is_Some (start (event l)) ∧
  isMultiDay l = isMultiDayEvent (event l) ∧
  continuesNextDay l = continuesNextDay_ vd (event l) ∧
  continuesFromPrevDay l = isContinuedFromPreviousDay vd (event l).
Proof.
  intros Hl.
  assert (withTotal 0 l ∈ withTotal 0 <$> computeLayouts evs vd) as Hl0
    by (by apply list_elem_of_fmap_2).
  rewrite computeLayouts_erase in Hl0.
  apply elem_of_concat_inv in Hl0 as (pk & Hpk & Hin).
  apply list_elem_of_fmap in Hpk as (g & -> & Hg).
  pose proof (packState_shape vd g) as [Hev Hnew _ _].
  split.
  - assert (event l ∈ started g) as Hs.
    { rewrite <- Hev. change (event l) with (event (withTotal 0 l)).
      by apply list_elem_of_fmap_2. }
    unfold started in Hs. by apply list_elem_of_filter in Hs as [? _].
  - specialize (Hnew _ Hin). simpl in Hnew.
    by injection Hnew as -> -> ->.
Qed.

Lemma positions_formula evs sh hh vd p :
  p ∈ calculateEventPositions evs sh hh vd →
  ∃ s, start (p_event p) = Some s ∧
    p_top p =
      (inject_Z (minutesOfDay (displayedStart vd (p_event p) s) - sh * 60)
         / 60 * hh)%Q ∧
    p_height p =
      (inject_Z (minutesOfDay (displayedEnd vd (p_event p) s)
                 - minutesOfDay (displayedStart vd (p_event p) s))
         / 60 * hh)%Q ∧
    p_isMultiDay p = isMultiDayEvent (p_event p) ∧
    p_continuesNextDay p = continuesNextDay_ vd (p_event p) ∧
    p_continuesFromPrevDay p = isContinuedFromPreviousDay vd (p_event p).
Proof.
  unfold calculateEventPositions. destruct evs as [|e0 evs].
  { by intros ?%elem_of_nil. }
  intros (l & Hl & Hp)%list_elem_of_omap.
  apply computeLayouts_flags in Hl as (_ & Hm & Hn & Hf).
  unfold project in Hp. destruct (start (event l)) as [s|] eqn:Hs; [|done].
  injection Hp as <-. simpl. exists s.
  unfold displayedStart, displayedEnd, adjustedStartTime, adjustedEndTime.
  rewrite <- Hn, <- Hf. done.
Qed.





(** The midnight is needed: [new Date(viewDate)] keeps the time of day of
    [viewDate].  The multi-day event of the clamping example rendered with
    [viewDate] 2023-06-02T15:29 and [startHour = 8] gets top 449, where
    00:00 of that day gives -480. *)
Lemma viewDate_time_of_day_is_projected :
  ∃ p, calculateEventPositions [evSpan] 8 60 (june2 15 29) = [p] ∧
    (p_top p == 449)%Q ∧
    (inject_Z (minutesOfDay
       (specDisplayedStart (june2 15 29) evSpan (JsDate.at_ 2023 6 1 22 0))
       - 8 * 60) / 60 * 60 == -480)%Q.
Proof.
  eexists. split; [reflexivity|]. split; by vm_compute.
Qed.

(** ** Multi-day clamping *)

(** C4, as amended.  The event 2023-06-01T22:00 - 2023-06-03T02:00 rendered
    on 2023-06-02 with [startHour = 0] continues from the previous day and
    into the next, is displayed from 00:00 to 23:59:59.999 of that day, and
    gets top 0 and height [1439 / 60 * hourHeight]: the last minute of the
    day is not covered. *)
Theorem C4_multi_day_clamping (hh : Q) :
  ∃ p, calculateEventPositions [evSpan] 0 hh (june2 0 0) = [p] ∧
    p_isMultiDay p = true ∧
    p_continuesFromPrevDay p = true ∧
    p_continuesNextDay p = true ∧
    displayedStart (june2 0 0) evSpan (JsDate.at_ 2023 6 1 22 0) = june2 0 0 ∧
    displayedEnd (june2 0 0) evSpan (JsDate.at_ 2023 6 1 22 0) = endOfJune2 ∧
    (p_top p == 0)%Q ∧
    (p_height p == (1439 # 60) * hh)%Q.
Proof.
  eexists. split; [reflexivity|].
  split; [reflexivity|]. split; [reflexivity|]. split; [reflexivity|].
  split; [reflexivity|]. split; [reflexivity|].
  split.
  - change (inject_Z 0 / 60 * hh == 0)%Q. by field.
  - change (inject_Z 1439 / 60 * hh == (1439 # 60) * hh)%Q.
    apply Qmult_comp; [by vm_compute|reflexivity].
Qed.

(** C4 as stated fails: with [hourHeight = 60] the height is 1439, not
    the full day height [24 * 60 = 1440]. *)
Lemma C4_counterexample :
  ∃ p, calculateEventPositions [evSpan] 0 60 (june2 0 0) = [p] ∧
    p_continuesFromPrevDay p = true ∧
    p_continuesNextDay p = true ∧
    (p_top p == 0)%Q ∧
    (p_height p == 1439)%Q ∧
    ¬ (p_height p == 24 * 60)%Q.
Proof.
  eexists. split; [reflexivity|].
  split; [reflexivity|]. split; [reflexivity|].
  split; [by vm_compute|]. split; [by vm_compute|].
  by vm_compute.
Qed.

(** ** Touching intervals *)







(** ** Identical intervals *)

Lemma sort_fold_keep {A} (cmp : A → A → Z) l acc :
  (∀ a b, a ∈ l ++ acc → b ∈ l ++ acc → cmp a b <= 0) →
  fold_left (λ acc x, insertBack cmp x acc) l acc = reverse l ++ acc.
Proof.
  revert acc. induction l as [|x l IH]; intros acc Hc; simpl; [done|].
  assert (∀ a, a = x ∨ a ∈ l ∨ a ∈ acc → a ∈ (x :: l) ++ acc) as Hin.
  { intros a. rewrite elem_of_app, elem_of_cons. tauto. }
  assert (insertBack cmp x acc = x :: acc) as ->.
  { destruct acc as [|y ys]; [done|]. apply insertBack_keep.
    apply Hc; apply Hin; rewrite ?elem_of_cons; auto. }
  rewrite IH.
  - by rewrite reverse_cons, <- app_assoc.
  - intros a b Ha Hb.
    apply Hc; apply Hin; rewrite elem_of_app, elem_of_cons in *; tauto.
Qed.

(** A list whose elements all compare [<= 0] is left as it is. *)
Lemma sort_keep {A} (cmp : A → A → Z) l :
  (∀ a b, a ∈ l → b ∈ l → cmp a b <= 0) → sort cmp l = l.
Proof.
  intros Hc. unfold sort. rewrite sort_fold_keep.
  - by rewrite app_nil_r, reverse_involutive.
  - intros a b. rewrite app_nil_r. apply Hc.
Qed.

Section Uniform.
Context (s t : Z) (Hst : s < t).

Lemma uniform_overlaps e : uniform s t e → overlaps s t e = true.
Proof.
  intros [He ->]%interval_Some. unfold overlaps. rewrite He. simpl.
  apply andb_true_iff. split; [by apply Z.ltb_lt|].
  rewrite Z.gtb_ltb. by apply Z.ltb_lt.
Qed.

Lemma uniform_groupStep_fold l gs c cur :
  Forall (uniform s t) l → Forall (uniform s t) (c :: cur) →
  fold_left groupStep l (gs, c :: cur) = (gs, c :: cur ++ l).
Proof.
  revert cur. induction l as [|e l IH]; intros cur Hl Hcur; simpl.
  - by rewrite app_nil_r.
  - apply Forall_cons in Hl as [He Hl].
    pose proof He as [Hes Het]%interval_Some.
    unfold groupStep at 2. rewrite Hes. simpl.
    apply Forall_cons in Hcur as [Hc Hcur].
    rewrite <- Het, (uniform_overlaps c Hc). simpl.
    rewrite (IH (cur ++ [e])).
    + by rewrite <- app_assoc.
    + done.
    + apply Forall_cons. split; [done|]. apply Forall_app. split; [done|].
      by apply Forall_singleton.
Qed.

Lemma uniform_buildGroups e l :
  Forall (uniform s t) (e :: l) → buildGroups (e :: l) = [e :: l].
Proof.
  intros Hl. unfold buildGroups. simpl.
  pose proof Hl as [He Hl']%Forall_cons.
  pose proof He as [Hes _]%interval_Some.
  unfold groupStep at 2. rewrite Hes. simpl.
  rewrite (uniform_groupStep_fold l [] e []); [done|done|].
  by apply Forall_singleton.
Qed.

Lemma uniform_findColumn cols base :
  Forall (uniform s t) cols → findColumn s cols base = None.
Proof.
  intros Hcols. revert base.
  induction Hcols as [|e cols He _ IH]; intros base; simpl; [done|].
  apply interval_Some in He as [He Het]. rewrite He.
  destruct (s >=? endOr s e) eqn:E; [lia|]. apply IH.
Qed.

Lemma uniform_pack vd l cols ls :
  Forall (uniform s t) l → Forall (uniform s t) cols →
  fold_left (placeStep vd) l (cols, ls) =
    (cols ++ l, ls ++ imap (λ i e, newLayout vd e (length cols + i)) l).
Proof.
  revert cols ls. induction l as [|e l IH]; intros cols ls Hl Hcols; simpl.
  - by rewrite !app_nil_r.
  - apply Forall_cons in Hl as [He Hl].
    pose proof He as [Hes _]%interval_Some.
    unfold placeStep at 2. rewrite Hes. simpl.
    rewrite uniform_findColumn by done.
    rewrite IH; [|done|].
    + rewrite <- !app_assoc. simpl. rewrite Nat.add_0_r. f_equal.
      f_equal. f_equal. apply imap_ext. intros i x _. simpl.
      rewrite length_app. simpl. f_equal. lia.
    + apply Forall_app. split; [done|]. by apply Forall_singleton.
Qed.

Lemma uniform_sortedEvents l : Forall (uniform s t) l → sortedEvents l = l.
Proof.
  intros Hl. apply sort_keep. intros a b Ha Hb.
  rewrite Forall_forall in Hl.
  pose proof (Hl a Ha) as [Ha' _]%interval_Some.
  pose proof (Hl b Hb) as [Hb' _]%interval_Some.
  unfold compareStart. rewrite Ha', Hb'. lia.
Qed.

End Uniform.

(** C9, as amended.  Events that all have the same non-empty effective
    interval ([start < end]) and pairwise distinct ids form one cluster;
    the k-th event of the input gets column k, and every one carries the
    column count N, the number of events. *)
Theorem C9_identical_intervals (evs : list CalendarEvent) (s t vd : Z) :
  s < t → Forall (uniform s t) evs → NoDup (id <$> evs) →
  sortedEvents evs = evs ∧
  (evs ≠ [] → buildGroups (sortedEvents evs) = [evs]) ∧
  computeLayouts evs vd =
    imap (λ k e, withTotal (length evs) (newLayout vd e k)) evs.
Proof.
  intros Hst Hall Hnd.
  pose proof (uniform_sortedEvents s t evs Hall) as Hsort.
  split; [done|]. split.
  - intros Hne. rewrite Hsort. destruct evs as [|e l]; [done|].
    by apply (uniform_buildGroups s t).
  - rewrite computeLayouts_distinct by done. rewrite Hsort.
    destruct evs as [|e l]; [done|].
    rewrite (uniform_buildGroups s t) by done. csimpl.
    rewrite app_nil_r.
    unfold clusterLayouts, numColumns, packGroup, packState.
    rewrite (uniform_pack s t) by done.
    cbn [fst snd app length]. by rewrite fmap_imap.
Qed.

Lemma C9_identical_intervals_witness :
  computeLayouts [evX; evY; evZ] (june2 0 0) =
    imap (λ k e, withTotal 3 (newLayout (june2 0 0) e k)) [evX; evY; evZ].
Proof.
  refine (proj2 (proj2 (C9_identical_intervals [evX; evY; evZ]
            (june2 10 0) (june2 10 30) (june2 0 0) _ _ _))).
  - by vm_compute.
  - repeat constructor.
  - compute_done.
Defined.

(** C9 as stated fails for an empty interval: P and Q, both 10:00-10:00,
    have identical effective intervals and distinct ids, yet each is a
    cluster of its own, both get column 0 and both carry a column count
    of 1. *)
Lemma C9_counterexample :
  uniform (june2 10 0) (june2 10 0) evP ∧
  uniform (june2 10 0) (june2 10 0) evQ ∧
  NoDup (id <$> [evP; evQ]) ∧
  buildGroups (sortedEvents [evP; evQ]) = [[evP]; [evQ]] ∧
  placement <$> computeLayouts [evP; evQ] (june2 0 0) =
    [("P", 0%nat, 1%nat); ("Q", 0%nat, 1%nat)] ∧
  computeLayouts [evP; evQ] (june2 0 0) ≠
    imap (λ k e, withTotal 2 (newLayout (june2 0 0) e k)) [evP; evQ].
Proof.
  split_and!; try reflexivity; [compute_done|].
  intros H. apply (f_equal (fmap placement)) in H. by vm_compute in H.
Qed.

(** ** Events without start *)

Lemma concat_fmap_started gs :
  concat (started <$> gs) = started (concat gs).
Proof.
  induction gs as [|g gs IH]; csimpl; [done|].
  unfold started in *. by rewrite filter_app, IH.
Qed.

Lemma started_idemp l : started (started l) = started l.
Proof.
  apply started_all. apply Forall_forall. intros e He.
  unfold started in He. by apply list_elem_of_filter in He as [? _].
Qed.

Lemma computeLayouts_events evs vd :
  event <$> computeLayouts evs vd = started (sortedEvents evs).
Proof.
  assert (event <$> computeLayouts evs vd =
          event <$> (withTotal 0 <$> computeLayouts evs vd)) as ->.
  { rewrite <- list_fmap_compose. by apply list_fmap_ext. }
  rewrite computeLayouts_erase.
  assert (∀ gs, event <$> concat (packGroup vd <$> gs) = concat (started <$> gs))
    as ->.
  { induction gs as [|g gs IH]; csimpl; [done|].
    rewrite fmap_app, IH. f_equal.
    apply (shape_events _ _ _ (packState_shape vd g)). }
  by rewrite concat_fmap_started, buildGroups_concat, started_idemp.
Qed.

(** The result has exactly one rectangle for every event with a start, in
    the sorted order, and none for an event without. *)
Lemma positions_events evs sh hh vd :
  p_event <$> calculateEventPositions evs sh hh vd = started (sortedEvents evs).
Proof.
  unfold calculateEventPositions. destruct evs as [|e0 evs]; [done|].
  rewrite <- (computeLayouts_events _ vd).
  assert (∀ ls, Forall (λ l, is_Some (start (event l))) ls →
            p_event <$> omap (project sh hh vd) ls = event <$> ls) as Hgen.
  { induction 1 as [|l ls [s Hs] _ IH]; csimpl; [done|].
    unfold project at 1. rewrite Hs. csimpl. by rewrite IH. }
  apply Hgen. apply Forall_forall. intros l Hl.
  by apply computeLayouts_flags in Hl as [? _].
Qed.

(** The rectangles are the layouts projected one by one: column and
    column count come back as [left] and [width]. *)
Lemma positions_of_layouts evs sh hh vd :
  calculateEventPositions evs sh hh vd =
    omap (project sh hh vd) (computeLayouts evs vd).
Proof. by destruct evs. Qed.

(** ** The default duration *)

Lemma fillEnd_start e : start (fillEnd e) = start e.
Proof. by destruct e as [i [s|] [t|]]. Qed.

Lemma fillEnd_id e : id (fillEnd e) = id e.
Proof. by destruct e as [i [s|] [t|]]. Qed.

Lemma fillEnd_endOr e s : start e = Some s → endOr s (fillEnd e) = endOr s e.
Proof.
  destruct e as [i [s'|] [t|]]; simpl; intros [= <-]; done.
Qed.

Lemma compareStart_fillEnd a b :
  compareStart (fillEnd a) (fillEnd b) = compareStart a b.
Proof. unfold compareStart. by rewrite !fillEnd_start. Qed.

Lemma insertBack_fmap {A} (cmp : A → A → Z) (f : A → A) x acc :
  (∀ a b, cmp (f a) (f b) = cmp a b) →
  insertBack cmp (f x) (f <$> acc) = f <$> insertBack cmp x acc.
Proof.
  intros Hf. induction acc as [|y ys IH]; csimpl; [done|].
  rewrite Hf. destruct (0 <? cmp y x); csimpl; [|done]. by rewrite IH.
Qed.

Lemma sort_fmap {A} (cmp : A → A → Z) (f : A → A) l :
  (∀ a b, cmp (f a) (f b) = cmp a b) →
  sort cmp (f <$> l) = f <$> sort cmp l.
Proof.
  intros Hf. unfold sort. rewrite fmap_reverse. f_equal.
  change (@nil A) with (f <$> @nil A) at 1. generalize (@nil A).
  induction l as [|x l IH]; intros acc; csimpl; [done|].
  by rewrite insertBack_fmap, IH.
Qed.

Lemma overlaps_fillEnd s t e : overlaps s t (fillEnd e) = overlaps s t e.
Proof.
  unfold overlaps. rewrite fillEnd_start.
  destruct (start e) as [se|] eqn:Hs; [|done]. simpl.
  by rewrite fillEnd_endOr.
Qed.

Lemma existsb_fillEnd s t (l : list CalendarEvent) :
  existsb (overlaps s t) (fillEnd <$> l) = existsb (overlaps s t) l.
Proof.
  induction l as [|e l IH]; csimpl; [done|].
  by rewrite overlaps_fillEnd, IH.
Qed.

Lemma groupStep_fillEnd (gs : list (list CalendarEvent)) (cur : list CalendarEvent) e :
  groupStep (fmap (M:=list) fillEnd <$> gs, fillEnd <$> cur) (fillEnd e) =
    (fmap (M:=list) fillEnd <$> (groupStep (gs, cur) e).1,
     fillEnd <$> (groupStep (gs, cur) e).2).
Proof.
  unfold groupStep. rewrite fillEnd_start.
  destruct (start e) as [s|] eqn:Hs; simpl; [|done].
  rewrite fillEnd_endOr by done.
  destruct cur as [|c cur]; csimpl; [done|].
  rewrite overlaps_fillEnd, existsb_fillEnd.
  destruct (_ || _); csimpl.
  - by rewrite fmap_app.
  - by rewrite fmap_app.
Qed.

Lemma buildGroups_fillEnd (l : list CalendarEvent) :
  buildGroups (fillEnd <$> l) = fmap (M:=list) fillEnd <$> buildGroups l.
Proof.
  unfold buildGroups.
  assert (∀ (gs : list (list CalendarEvent)) (cur : list CalendarEvent),
    fold_left groupStep (fillEnd <$> l) (fmap (M:=list) fillEnd <$> gs, fillEnd <$> cur) =
      (fmap (M:=list) fillEnd <$> (fold_left groupStep l (gs, cur)).1,
       fillEnd <$> (fold_left groupStep l (gs, cur)).2)) as Hgen.
  { induction l as [|e l IH]; intros gs cur; csimpl; [done|].
    rewrite groupStep_fillEnd.
    destruct (groupStep (gs, cur) e) as [gs' cur']. simpl. apply IH. }
  specialize (Hgen [] []). csimpl in Hgen. rewrite Hgen.
  destruct (fold_left groupStep l ([], [])) as [gs [|c cur]]; simpl.
  - done.
  - unfold closeGroups. csimpl. by rewrite fmap_app.
Qed.

Lemma findColumn_fillEnd s (cols : list CalendarEvent) base :
  findColumn s (fillEnd <$> cols) base = findColumn s cols base.
Proof.
  revert base. induction cols as [|e cols IH]; intros base; csimpl; [done|].
  rewrite fillEnd_start. destruct (start e) as [se|] eqn:Hs; [|done].
  rewrite fillEnd_endOr by done. by rewrite IH.
Qed.

Lemma samePlacement_snoc ls' ls l' l :
  samePlacement ls' ls → placement l' = placement l →
  samePlacement (ls' ++ [l']) (ls ++ [l]).
Proof.
  unfold samePlacement. intros H Hl. rewrite !fmap_app. csimpl.
  by rewrite H, Hl.
Qed.

Lemma placeStep_fillEnd vd (cols : list CalendarEvent) ls' ls e :
  samePlacement ls' ls →
  (placeStep vd (fillEnd <$> cols, ls') (fillEnd e)).1 =
    fillEnd <$> (placeStep vd (cols, ls) e).1 ∧
  samePlacement (placeStep vd (fillEnd <$> cols, ls') (fillEnd e)).2
    (placeStep vd (cols, ls) e).2.
Proof.
  intros Hsim. unfold placeStep. simpl. rewrite fillEnd_start.
  destruct (start e) as [s|]; simpl; [|done].
  rewrite findColumn_fillEnd.
  destruct (findColumn s cols 0) as [c|]; simpl.
  - split; [by rewrite list_fmap_insert|].
    apply samePlacement_snoc; [done|].
    unfold placement. simpl. by rewrite fillEnd_id.
  - split; [by rewrite fmap_app|].
    apply samePlacement_snoc; [done|].
    unfold placement. simpl. by rewrite fillEnd_id, length_fmap.
Qed.

Lemma pack_fillEnd vd (g cols : list CalendarEvent) ls' ls :
  samePlacement ls' ls →
  (fold_left (placeStep vd) (fillEnd <$> g) (fillEnd <$> cols, ls')).1 =
    fillEnd <$> (fold_left (placeStep vd) g (cols, ls)).1 ∧
  samePlacement (fold_left (placeStep vd) (fillEnd <$> g) (fillEnd <$> cols, ls')).2
    (fold_left (placeStep vd) g (cols, ls)).2.
Proof.
  revert cols ls' ls. induction g as [|e g IH]; intros cols ls' ls Hsim; csimpl.
  - done.
  - destruct (placeStep_fillEnd vd cols ls' ls e Hsim) as [H1 H2].
    destruct (placeStep vd (fillEnd <$> cols, ls') (fillEnd e)) as [c1 l1].
    destruct (placeStep vd (cols, ls) e) as [c2 l2]. simpl in *. subst c1.
    by apply IH.
Qed.

Lemma setTotal_samePlacement eid n ls' ls :
  samePlacement ls' ls →
  samePlacement (setTotal eid n ls') (setTotal eid n ls).
Proof.
  unfold samePlacement. revert ls.
  induction ls' as [|l' ls' IH]; intros [|l ls]; csimpl; try done.
  intros [= Hid Hcol Htot Hrest].
  rewrite Hid. destruct (String.eqb (id (event l)) eid); csimpl.
  - unfold placement at 1 3. simpl. by rewrite Hid, Hcol, Hrest.
  - unfold placement at 1 3. rewrite Hid, Hcol, Htot. f_equal. by apply IH.
Qed.

Lemma broadcastLoop_fillEnd n (g : list CalendarEvent) ls' ls :
  samePlacement ls' ls →
  samePlacement
    (fold_left (λ ls ev, setTotal (id ev) n ls) (fillEnd <$> g) ls')
    (fold_left (λ ls ev, setTotal (id ev) n ls) g ls).
Proof.
  revert ls' ls. induction g as [|e g IH]; intros ls' ls Hsim; csimpl; [done|].
  apply IH. rewrite fillEnd_id. by apply setTotal_samePlacement.
Qed.

Lemma processGroup_fillEnd vd (g : list CalendarEvent) acc' acc :
  samePlacement acc' acc →
  samePlacement (processGroup vd acc' (fillEnd <$> g)) (processGroup vd acc g).
Proof.
  intros Hsim. unfold processGroup.
  destruct (pack_fillEnd vd g [] acc' acc Hsim) as [H1 H2]. csimpl in *.
  rewrite H1, length_fmap. by apply broadcastLoop_fillEnd.
Qed.

(** Writing the default end into the events changes no column and no
    column count: clustering and packing work on the effective interval. *)
Lemma computeLayouts_fillEnd evs vd :
  samePlacement (computeLayouts (fillEnd <$> evs) vd) (computeLayouts evs vd).
Proof.
  unfold computeLayouts, sortedEvents.
  rewrite sort_fmap by apply compareStart_fillEnd.
  rewrite buildGroups_fillEnd.
  assert (∀ (gs : list (list CalendarEvent)) acc' acc, samePlacement acc' acc →
    samePlacement (fold_left (processGroup vd) (fmap (M:=list) fillEnd <$> gs) acc')
      (fold_left (processGroup vd) gs acc)) as Hgen.
  { induction gs as [|g gs IH]; intros acc' acc Hsim; csimpl; [done|].
    apply IH. by apply processGroup_fillEnd. }
  by apply Hgen.
Qed.

Lemma isMultiDayEvent_true e :
  isMultiDayEvent e = true ↔
  ∃ s t, start e = Some s ∧ end_ e = Some t ∧ JsDate.dayOf s ≠ JsDate.dayOf t.
Proof.
  unfold isMultiDayEvent. destruct (start e) as [s|], (end_ e) as [t|].
  - rewrite negb_true_iff, Z.eqb_neq. split.
    + intros H. by exists s, t.
    + by intros (? & ? & [= <-] & [= <-] & H).
  - split; [done|]. by intros (? & ? & _ & ? & _).
  - split; [done|]. by intros (? & ? & ? & _).
  - split; [done|]. by intros (? & ? & ? & _).
Qed.

(** C6, as amended.  Clustering and packing use the effective interval,
    whose end is [start + 30 minutes] when the event has none: writing that
    default into the events changes no column and no column count.  A
    layout is multi-day exactly when its event has an end and the calendar
    day of the start differs from the calendar day of that end; an event
    without end is never multi-day. *)
Theorem C6_default_end_and_multi_day (evs : list CalendarEvent) (vd : Z) :
  samePlacement (computeLayouts (fillEnd <$> evs) vd) (computeLayouts evs vd) ∧
  ∀ l, l ∈ computeLayouts evs vd →
    ∃ s, start (event l) = Some s ∧
      interval (event l) =
        Some (s, default (s + 30 * 60000) (end_ (event l))) ∧
      (isMultiDay l = true ↔
         ∃ t, end_ (event l) = Some t ∧ JsDate.dayOf s ≠ JsDate.dayOf t).
Proof.
  split; [apply computeLayouts_fillEnd|].
  intros l (Hs & Hm & _)%computeLayouts_flags.
  destruct Hs as [s Hs]. exists s. split; [done|]. split.
  - unfold interval, endOr, halfHour. rewrite Hs. by destruct (end_ (event l)).
  - rewrite Hm, isMultiDayEvent_true. split.
    + intros (s' & t & Hs' & Ht & Hne). exists t.
      rewrite Hs in Hs'. by injection Hs' as <-.
    + intros (t & Ht & Hne). by exists s, t.
Qed.

Lemma C6_default_end_and_multi_day_witness :
  ∃ s, start evNight = Some s ∧
    interval evNight = Some (s, default (s + 30 * 60000) (end_ evNight)).
Proof.
  destruct (proj2 (C6_default_end_and_multi_day [evNight] (june2 0 0))
              (withTotal 1 (newLayout (june2 0 0) evNight 0)))
    as (s & Hs & Hi & _); [by left|].
  exists s. split; [exact Hs|exact Hi].
Defined.

(** C6 as stated fails for an event without end whose half hour crosses
    midnight: the effective interval of "R" starts on 2 June and ends on
    3 June, and the layout is not multi-day. *)
Lemma C6_counterexample :
  ∃ s t, interval evNight = Some (s, t) ∧
    t = s + 30 * 60000 ∧
    JsDate.dayOf s ≠ JsDate.dayOf t ∧
    isMultiDayEvent evNight = false ∧
    isMultiDay <$> computeLayouts [evNight] (june2 0 0) = [false].
Proof.
  eexists _, _. split; [reflexivity|]. split_and!; by vm_compute.
Qed.

(** * Further properties of the layout *)

(** ** What comes back *)

(** X1.  The result has exactly one rectangle for every event of the input
    that has a start and none for an event without; the rectangles carry
    the events in the order of the sort, a rearrangement of the input
    order.  When every event has a start, the rectangles are ordered by
    start.  The empty input gives the empty result. *)
Theorem X1_one_rectangle_per_started_event
    (evs : list CalendarEvent) (sh : Z) (hh : Q) (vd : Z) :
  p_event <$> calculateEventPositions evs sh hh vd = started (sortedEvents evs) ∧
  p_event <$> calculateEventPositions evs sh hh vd ≡ₚ started evs ∧
  (started evs = evs →
   StronglySorted (byKey effStart)
     (p_event <$> calculateEventPositions evs sh hh vd)) ∧
  calculateEventPositions [] sh hh vd = [].
Proof.
  rewrite positions_events. split_and!.
  - done.
  - unfold started. by rewrite sortedEvents_perm.
  - intros Hall. apply StronglySorted_filter. apply sortedEvents_sorted.
    rewrite <- Hall. apply Forall_forall. intros e He.
    unfold started in He. by apply list_elem_of_filter in He as [? _].
  - done.
Qed.

Lemma X1_one_rectangle_per_started_event_witness :
  StronglySorted (byKey effStart)
    (p_event <$> calculateEventPositions [evB; evA; evC] 0 60 (june2 0 0)).
Proof.
  refine (proj1 (proj2 (proj2
    (X1_one_rectangle_per_started_event [evB; evA; evC] 0 60 (june2 0 0)))) _).
  reflexivity.
Defined.

(** ** Events that follow one another *)

Lemma sort_fold_ordered {A} (cmp : A → A → Z) l acc :
  StronglySorted (λ a b, cmp a b <= 0) l →
  (∀ y x, y ∈ acc → x ∈ l → cmp y x <= 0) →
  fold_left (λ acc x, insertBack cmp x acc) l acc = reverse l ++ acc.
Proof.
  revert acc. induction l as [|x l IH]; intros acc Hs Hacc; simpl; [done|].
  apply StronglySorted_cons in Hs as [Hx Hs].
  assert (insertBack cmp x acc = x :: acc) as ->.
  { destruct acc as [|y ys]; [done|]. apply insertBack_keep.
    apply Hacc; left. }
  rewrite IH; [by rewrite reverse_cons, <- app_assoc|done|].
  intros y z [->|Hy]%elem_of_cons Hz.
  - rewrite Forall_forall in Hx. auto.
  - apply Hacc; [done|by right].
Qed.

(** A list in which no element compares greater than a later one is left
    as it is. *)
Lemma sort_ordered {A} (cmp : A → A → Z) l :
  StronglySorted (λ a b, cmp a b <= 0) l → sort cmp l = l.
Proof.
  intros Hs. unfold sort. rewrite sort_fold_ordered; [|done|].
  - by rewrite app_nil_r, reverse_involutive.
  - by intros y x ?%elem_of_nil.
Qed.

Lemma sortedEvents_ordered evs :
  StronglySorted (byKey effStart) evs →
  Forall (λ e, is_Some (start e)) evs →
  sortedEvents evs = evs.
Proof.
  intros Hs Hall. apply sort_ordered.
  assert (∀ l, StronglySorted (byKey effStart) l →
               Forall (λ e, is_Some (start e)) l →
               StronglySorted (λ a b, compareStart a b <= 0) l) as Hgen.
  { induction 1 as [|x l Hl IH Hx]; intros Hst; [constructor|].
    apply Forall_cons in Hst as [Hsx Hsl].
    constructor; [by apply IH|].
    rewrite Forall_forall in *. intros y Hy.
    rewrite compareStart_started by auto.
    specialize (Hx y Hy). unfold byKey in Hx. lia. }
  by apply Hgen.
Qed.

Lemma overlaps_entirelyBefore p x sx :
  is_Some (start p) → entirelyBefore p x → start x = Some sx →
  overlaps sx (endOr sx x) p = false.
Proof.
  intros [sp Hp] [_ Hle] Hx. unfold overlaps. rewrite Hp. simpl.
  unfold effEnd, effStart in Hle. rewrite Hp, Hx in Hle. simpl in Hle.
  apply andb_false_iff. left. apply Z.ltb_ge. done.
Qed.

Lemma closeGroups_chain l gs p :
  StronglySorted entirelyBefore (p :: l) →
  Forall (λ e, is_Some (start e)) (p :: l) →
  closeGroups (fold_left groupStep l (gs, [p])) = gs ++ ((λ e, [e]) <$> p :: l).
Proof.
  revert gs p. induction l as [|x l IH]; intros gs p Hs Hall; csimpl; [done|].
  apply StronglySorted_cons in Hs as [Hp Hs].
  apply Forall_cons in Hall as [Hsp Hall].
  pose proof Hall as [[sx Hsx] _]%Forall_cons.
  apply Forall_cons in Hp as [Hpx _].
  unfold groupStep at 2. rewrite Hsx. simpl.
  rewrite (overlaps_entirelyBefore p x sx Hsp Hpx Hsx). simpl.
  rewrite IH by done. by rewrite <- app_assoc.
Qed.

Lemma buildGroups_chain evs :
  StronglySorted entirelyBefore evs →
  Forall (λ e, is_Some (start e)) evs →
  buildGroups evs = (λ e, [e]) <$> evs.
Proof.
  intros Hs Hall. destruct evs as [|p l]; [done|].
  unfold buildGroups. simpl.
  pose proof Hall as [[sp Hsp] _]%Forall_cons.
  unfold groupStep at 2. rewrite Hsp. simpl.
  by rewrite closeGroups_chain.
Qed.

Lemma clusterLayouts_single vd e :
  is_Some (start e) → clusterLayouts vd [e] = [withTotal 1 (newLayout vd e 0)].
Proof.
  intros [s Hs]. unfold clusterLayouts, numColumns, packGroup, packState.
  simpl. unfold placeStep. rewrite Hs. done.
Qed.

(** X2.  Events given in order, each ending (not before its start and) at
    or before the start of the next, with pairwise distinct ids: every
    event is a cluster of its own, is placed in column 0 and carries a
    column count of 1. *)
Theorem X2_disjoint_events_single_column (evs : list CalendarEvent) (vd : Z) :
  Forall (λ e, is_Some (start e)) evs →
  StronglySorted entirelyBefore evs →
  NoDup (id <$> evs) →
  buildGroups (sortedEvents evs) = (λ e, [e]) <$> evs ∧
  computeLayouts evs vd = (λ e, withTotal 1 (newLayout vd e 0)) <$> evs.
Proof.
  intros Hall Hs Hnd.
  assert (sortedEvents evs = evs) as Hsort.
  { apply sortedEvents_ordered; [|done].
    eapply StronglySorted_impl; [|done].
    intros a b [H1 H2]. unfold byKey. lia. }
  assert (buildGroups (sortedEvents evs) = (λ e, [e]) <$> evs) as Hg.
  { rewrite Hsort. by apply buildGroups_chain. }
  split; [done|].
  rewrite computeLayouts_distinct by done. rewrite Hg.
  clear Hs Hnd Hsort Hg.
  induction Hall as [|e l He _ IH]; csimpl; [done|].
  rewrite clusterLayouts_single by done. csimpl. by rewrite IH.
Qed.

Lemma X2_disjoint_events_single_column_witness :
  computeLayouts [evA; evD] (june2 0 0) =
    (λ e, withTotal 1 (newLayout (june2 0 0) e 0)) <$> [evA; evD].
Proof.
  refine (proj2 (X2_disjoint_events_single_column [evA; evD] (june2 0 0) _ _ _)).
  - repeat constructor; by eexists.
  - repeat constructor; by vm_compute.
  - compute_done.
Defined.

(** ** Clusters *)



Lemma existsb_true_lookup {A} (f : A → bool) l :
  existsb f l = true → ∃ j x, l !! j = Some x ∧ f x = true.
Proof.
  induction l as [|x l IH]; simpl; [done|].
  intros [H|H]%orb_true_iff.
  - by exists 0%nat, x.
  - destruct (IH H) as (j & y & Hj & Hy). by exists (S j), y.
Qed.



Lemma lasting_started e : lasting e → is_Some (start e).
Proof. intros (s & t & [Hs _]%interval_Some & _). by rewrite Hs. Qed.



Lemma connected_snoc cur x :
  connected cur → cur ≠ [] →
  existsb (λ e, match start x with
                | Some sx => overlaps sx (endOr sx x) e
                | None => false
                end) cur = true →
  connected (cur ++ [x]).
Proof.
  intros Hc Hne Hov k y Hk Hy.
  apply lookup_snoc_cases in Hy as [[Hlt Hy]|[-> ->]].
  - destruct (Hc k y Hk Hy) as (j & e & Hj & He & Ho).
    exists j, e. split; [done|]. split; [|done].
    rewrite lookup_app_l; [done|]. by eapply lookup_lt_Some.
  - apply existsb_true_lookup in Hov as (j & e & Hj & He).
    exists j, e. split; [by eapply lookup_lt_Some|].
    split; [rewrite lookup_app_l; [done|by eapply lookup_lt_Some]|].
    unfold overlapsEvent. destruct (start x) as [sx|]; [|done]. by exists sx.
Qed.

Lemma connected_single x : connected [x].
Proof.
  intros k y Hk Hy. apply list_lookup_singleton_Some in Hy as [-> _]. lia.
Qed.

Lemma groupStep_connected st x :
  Forall connected (st.1 ++ [st.2]) →
  Forall connected ((groupStep st x).1 ++ [(groupStep st x).2]).
Proof.
  destruct st as [gs cur]. simpl. intros [Hgs Hcur]%Forall_app.
  rewrite Forall_singleton in Hcur.
  unfold groupStep. destruct (start x) as [sx|] eqn:Hx; simpl.
  2:{ apply Forall_app. split; [done|]. apply Forall_singleton. exact Hcur. }
  destruct cur as [|c cur]; simpl.
  - apply Forall_app. split; [done|]. apply Forall_singleton, connected_single.
  - destruct (overlaps sx (endOr sx x) c || existsb _ cur) eqn:Hov; simpl.
    + apply Forall_app. split; [done|]. apply Forall_singleton.
      change (c :: cur ++ [x]) with ((c :: cur) ++ [x]).
      apply connected_snoc; [done|done|]. by rewrite Hx.
    + apply Forall_app. split.
      * apply Forall_app. split; [done|]. by apply Forall_singleton.
      * apply Forall_singleton, connected_single.
Qed.

(** X4.  Whatever the input, every cluster is connected by the overlap
    test: each of its events but the first overlaps an event that comes
    earlier in the same cluster. *)
Theorem X4_clusters_are_connected (evs g : list CalendarEvent) :
  g ∈ buildGroups (sortedEvents evs) → connected g.
Proof.
  assert (∀ l st, Forall connected (st.1 ++ [st.2]) →
            Forall connected
              ((fold_left groupStep l st).1 ++ [(fold_left groupStep l st).2]))
    as Hgen.
  { induction l as [|x l IH]; intros st Hst; simpl; [done|].
    apply IH. by apply groupStep_connected. }
  specialize (Hgen (sortedEvents evs) ([], [])). simpl in Hgen.
  unfold buildGroups, closeGroups.
  destruct (fold_left groupStep (sortedEvents evs) ([], [])) as [gs cur].
  simpl in *.
  assert (Forall connected (gs ++ [cur])) as Hall.
  { apply Hgen. apply Forall_singleton. intros k y _ Hy.
    by rewrite lookup_nil in Hy. }
  rewrite Forall_forall in Hall. intros Hg. apply Hall.
  destruct cur as [|c cur]; [|done].
  apply elem_of_app. by left.
Qed.

Lemma X4_clusters_are_connected_witness : connected [evA; evB; evC].
Proof.
  apply (X4_clusters_are_connected [evC; evB; evA] [evA; evB; evC]).
  vm_compute. left.
Defined.

(** ** The number of columns is the least possible *)

Lemma insert_submseteq {A} (l p : list A) i x :
  l ⊆+ p → <[i := x]> l ⊆+ p ++ [x].
Proof.
  intros Hl. destruct (l !! i) as [c|] eqn:Hi.
  - rewrite insert_take_drop by (by eapply lookup_lt_Some).
    rewrite <- (take_drop_middle l i c Hi) in Hl.
    rewrite <- Permutation_middle. rewrite <- Permutation_cons_append.
    apply submseteq_skip.
    rewrite <- Permutation_middle in Hl.
    by apply submseteq_cons_l in Hl as (k & -> & Hk); apply submseteq_cons.
  - rewrite list_insert_ge by (by apply lookup_ge_None).
    by apply submseteq_inserts_r.
Qed.

(** What the packing loop keeps true on events that last, handled in the
    order of their starts: some instant is covered by as many events as
    there are columns. *)
Lemma packState_depth vd g :
  Forall lasting g → StronglySorted (byKey effStart) g →
  (packState vd g).1 ⊆+ g ∧
  ((packState vd g).1 = [] ∨
   ∃ t ws, ws ⊆+ g ∧ length ws = length (packState vd g).1 ∧
           Forall (covers t) ws).
Proof.
  induction g as [|x g IH] using rev_ind; intros Hall Hs.
  { split; [done|by left]. }
  apply Forall_app in Hall as [Hall Hx]. rewrite Forall_singleton in Hx.
  apply StronglySorted_app in Hs as (Hgx & Hs & _).
  destruct (IH Hall Hs) as [Hsub Hdepth].
  rewrite packState_snoc.
  destruct (packState vd g) as [cols ls]. simpl in *.
  destruct Hx as (sx & tx & [Hsx ->]%interval_Some & Hpos).
  unfold placeStep. rewrite Hsx. simpl.
  destruct (findColumn sx cols 0) as [c|] eqn:Hf; simpl.
  - apply findColumn_Some in Hf as (e & _ & He & _).
    rewrite Nat.sub_0_r in He.
    split; [by apply insert_submseteq|].
    right. destruct Hdepth as [->|(t & ws & Hws & Hlen & Hcov)]; [done|].
    exists t, ws. rewrite length_insert. split_and!; [|done|done].
    by apply submseteq_inserts_r.
  - split; [by apply submseteq_app|].
    right. exists sx, (cols ++ [x]). split_and!; [by apply submseteq_app|done|].
    apply Forall_app. split.
    + apply Forall_forall. intros e He.
      assert (e ∈ g) as Heg by (by eapply elem_of_submseteq).
      rewrite Forall_forall in Hall.
      split.
      * assert (byKey effStart e x) as Hk.
        { apply Hgx; [done|by apply list_elem_of_singleton]. }
        unfold byKey in Hk.
        assert (effStart x = sx) as <- by (unfold effStart; by rewrite Hsx).
        done.
      * eapply findColumn_None; [done|done|]. by apply lasting_started, Hall.
    + apply Forall_singleton. unfold covers, effEnd, effStart.
      rewrite Hsx. simpl. lia.
Qed.

(** X5.  When every event of the input has a start and lasts some time,
    the column count of a cluster is the least possible: some instant lies
    in the effective intervals of as many different events of the cluster
    as the cluster has columns. *)
Theorem X5_column_count_is_depth (evs g : list CalendarEvent) (vd : Z) :
  Forall lasting evs →
  g ∈ buildGroups (sortedEvents evs) →
  ∃ t ws, ws ⊆+ g ∧ length ws = numColumns vd g ∧ Forall (covers t) ws.
Proof.
  intros Hall Hg.
  assert (Forall lasting g) as Hlg.
  { apply Forall_forall. intros e He.
    destruct (buildGroups_started _ _ _ Hg He) as [_ Hin].
    rewrite sortedEvents_perm in Hin. rewrite Forall_forall in Hall. auto. }
  assert (StronglySorted (byKey effStart) g) as Hsg.
  { apply (StronglySorted_concat _ _ _ Hg). rewrite buildGroups_concat.
    apply StronglySorted_filter, sortedEvents_sorted.
    eapply Forall_impl; [exact Hall|]. apply lasting_started. }
  destruct (packState_depth vd g Hlg Hsg) as [_ [Hnil|Hd]].
  - exists 0, []. unfold numColumns. rewrite Hnil.
    split_and!; [apply submseteq_nil_l|done|constructor].
  - exact Hd.
Qed.

Lemma X5_column_count_is_depth_witness :
  ∃ t ws, ws ⊆+ [evA; evB; evC] ∧
    length ws = numColumns (june2 0 0) [evA; evB; evC] ∧ Forall (covers t) ws.
Proof.
  apply (X5_column_count_is_depth [evC; evA; evB] [evA; evB; evC] (june2 0 0)).
  - repeat constructor; eexists _, _; (split; [reflexivity|by vm_compute]).
  - vm_compute. left.
Defined.

(** ** Column index and column count *)

Lemma computeLayouts_column_lt evs vd l :
  NoDup (id <$> evs) → l ∈ computeLayouts evs vd →
  (column l < total l)%nat.
Proof.
  intros Hnd Hl. rewrite computeLayouts_distinct in Hl by done.
  apply elem_of_concat_inv in Hl as (ls & Hls & Hl).
  apply list_elem_of_fmap in Hls as (g & -> & _).
  unfold clusterLayouts in Hl.
  apply list_elem_of_fmap in Hl as (l' & -> & Hl'). simpl.
  apply (shape_lt _ _ _ (packState_shape vd g) l' Hl').
Qed.

Lemma percentages_finite (col n : nat) :
  (col < n)%nat →
  ∃ x w, leftPercentage col (widthPercentage n) = Fin x ∧
         widthPercentage n = Fin w.
Proof.
  intros Hlt. destruct n as [|n]; [lia|].
  unfold widthPercentage, leftPercentage. eauto.
Qed.

(** X6.  When the event ids are pairwise distinct, every layout has its
    column index below its column count, the number of columns of its
    cluster.  Every rectangle is then the projection of such a layout:
    its width is [100 / total] and its left [column * width], both
    finite. *)
Theorem X6_column_below_count
    (evs : list CalendarEvent) (sh : Z) (hh : Q) (vd : Z) :
  NoDup (id <$> evs) →
  (∀ l, l ∈ computeLayouts evs vd →
     (column l < total l)%nat ∧
     ∃ g, g ∈ buildGroups (sortedEvents evs) ∧ event l ∈ g ∧
          total l = numColumns vd g) ∧
  (∀ p, p ∈ calculateEventPositions evs sh hh vd →
     ∃ l, l ∈ computeLayouts evs vd ∧ p_event p = event l ∧
       (column l < total l)%nat ∧
       p_width p = widthPercentage (total l) ∧
       p_left p = leftPercentage (column l) (widthPercentage (total l)) ∧
       ∃ x w, p_left p = Fin x ∧ p_width p = Fin w).
Proof.
  intros Hnd. split.
  - intros l Hl. split; [by eapply computeLayouts_column_lt|].
    rewrite computeLayouts_distinct in Hl by done.
    apply elem_of_concat_inv in Hl as (ls & Hls & Hl).
    apply list_elem_of_fmap in Hls as (g & -> & Hg).
    unfold clusterLayouts in Hl.
    apply list_elem_of_fmap in Hl as (l' & -> & Hl'). simpl.
    exists g. split; [done|]. split; [|done].
    assert (event l' ∈ started g) as Hin.
    { rewrite <- (shape_events _ _ _ (packState_shape vd g)).
      by apply list_elem_of_fmap_2. }
    unfold started in Hin. by apply list_elem_of_filter in Hin as [_ ?].
  - intros p Hp. rewrite positions_of_layouts in Hp.
    apply list_elem_of_omap in Hp as (l & Hl & Hproj).
    pose proof (computeLayouts_column_lt evs vd l Hnd Hl) as Hlt.
    exists l. split; [done|].
    unfold project in Hproj. destruct (start (event l)); [|done].
    injection Hproj as <-. simpl. split_and!; try done.
    by apply percentages_finite.
Qed.

Lemma X6_column_below_count_witness :
  ∃ l, l ∈ computeLayouts [evA; evB; evC] (june2 0 0) ∧
       (column l < total l)%nat.
Proof.
  assert (NoDup (id <$> [evA; evB; evC])) as Hnd by compute_done.
  eexists. split; [left|].
  refine (proj1 (proj1 (X6_column_below_count [evA; evB; evC] 0 60 (june2 0 0) Hnd)
                  _ _)).
  left.
Defined.

(** ** The minutes a rectangle is projected from *)

Lemma minutesOfDay_eq t :
  minutesOfDay t = (t mod JsDate.msPerDay) / JsDate.msPerMinute.
Proof.
  unfold minutesOfDay, JsDate.getHours, JsDate.getMinutes,
    JsDate.msPerDay, JsDate.msPerHour, JsDate.msPerMinute.
  Z.to_euclidean_division_equations. lia.
Qed.

Lemma minutesOfDay_range t : 0 <= minutesOfDay t <= 1439.
Proof.
  rewrite minutesOfDay_eq. unfold JsDate.msPerDay, JsDate.msPerMinute.
  pose proof (Z.mod_pos_bound t 86400000 ltac:(lia)).
  split.
  - apply Z.div_pos; lia.
  - apply Z.lt_succ_r. apply Z.div_lt_upper_bound; lia.
Qed.

Lemma minutesOfDay_mono a b :
  JsDate.dayOf a = JsDate.dayOf b → a <= b →
  minutesOfDay a <= minutesOfDay b.
Proof.
  intros Hd Hab. rewrite !minutesOfDay_eq.
  unfold JsDate.dayOf, JsDate.msPerDay, JsDate.msPerMinute in *.
  apply Z.div_le_mono; [lia|].
  rewrite !Z.mod_eq by lia. rewrite Hd. lia.
Qed.

Lemma minutesOfDay_midnight t :
  t mod JsDate.msPerDay = 0 → minutesOfDay t = 0.
Proof. intros H. rewrite minutesOfDay_eq, H. done. Qed.

Lemma minutesOfDay_endOfDay t :
  minutesOfDay (JsDate.setHours t 23 59 59 999) = 1439.
Proof.
  rewrite minutesOfDay_eq.
  unfold JsDate.setHours, JsDate.dayOf, JsDate.msPerDay, JsDate.msPerHour,
    JsDate.msPerMinute.
  replace (t / 86400000 * 86400000 + 23 * 3600000 + 59 * 60000 + 59 * 1000 + 999)
    with (86399999 + t / 86400000 * 86400000) by lia.
  rewrite Z.mod_add by lia. done.
Qed.

(** The displayed minutes of an event that does not end before it starts,
    on a day it touches, rendered from midnight. *)
Lemma displayed_minutes_ordered vd ev s e :
  start ev = Some s → end_ ev = Some e → s <= e →
  vd mod JsDate.msPerDay = 0 →
  JsDate.dayOf s = JsDate.dayOf e ∨
    JsDate.dayOf s <= JsDate.dayOf vd <= JsDate.dayOf e →
  0 <= minutesOfDay (displayedStart vd ev s) ∧
  minutesOfDay (displayedStart vd ev s) <= minutesOfDay (displayedEnd vd ev s) ∧
  minutesOfDay (displayedEnd vd ev s) <= 1439.
Proof.
  intros Hs He Hle Hvd Hday.
  unfold displayedStart, displayedEnd, isContinuedFromPreviousDay,
    continuesNextDay_, isMultiDayEvent, endOr. rewrite Hs, He.
  pose proof (minutesOfDay_range s) as Hrs.
  pose proof (minutesOfDay_range e) as Hre.
  pose proof (minutesOfDay_midnight vd Hvd) as H0.
  pose proof (minutesOfDay_endOfDay vd) as H1.
  destruct (JsDate.dayOf s =? JsDate.dayOf e) eqn:Hse; simpl.
  - rewrite !andb_false_r. apply Z.eqb_eq in Hse.
    pose proof (minutesOfDay_mono s e Hse Hle). lia.
  - rewrite !andb_true_r. apply Z.eqb_neq in Hse.
    destruct Hday as [?|Hday]; [done|].
    destruct (JsDate.dayOf s =? JsDate.dayOf vd) eqn:Hsv;
      destruct (JsDate.dayOf e =? JsDate.dayOf vd) eqn:Hev; simpl;
      rewrite ?H0, ?H1; lia.
Qed.

(** The minutes the code projects, for an event with an end rendered
    from midnight: those of its own start and end, 0 where it continues
    from the previous day and 1439 where it continues into the next. *)
Lemma displayed_minutes vd ev s e :
  start ev = Some s → end_ ev = Some e →
  vd mod JsDate.msPerDay = 0 →
  minutesOfDay (displayedStart vd ev s) =
    (if (JsDate.dayOf s =? JsDate.dayOf e) || (JsDate.dayOf s =? JsDate.dayOf vd)
     then minutesOfDay s else 0) ∧
  minutesOfDay (displayedEnd vd ev s) =
    (if (JsDate.dayOf s =? JsDate.dayOf e) || (JsDate.dayOf e =? JsDate.dayOf vd)
     then minutesOfDay e else 1439).
Proof.
  intros Hs He Hvd.
  unfold displayedStart, displayedEnd, isContinuedFromPreviousDay,
    continuesNextDay_, isMultiDayEvent, endOr. rewrite Hs, He.
  pose proof (minutesOfDay_midnight vd Hvd) as H0.
  pose proof (minutesOfDay_endOfDay vd) as H1.
  destruct (JsDate.dayOf s =? JsDate.dayOf e); simpl.
  - by rewrite !andb_false_r.
  - rewrite !andb_true_r.
    by destruct (JsDate.dayOf s =? JsDate.dayOf vd),
      (JsDate.dayOf e =? JsDate.dayOf vd).
Qed.

(** X7.  An event with an end that is not before its start, rendered from
    the midnight of a day it touches (or being a single-day event): the
    minutes its rectangle is projected from are those of its own start
    and end, 0 where it continues from the previous day and 1439 where it
    continues into the next; they lie within the day and in order,
    [0 <= startMinutes <= endMinutes <= 1439], and top and height are
    [(startMinutes - startHour * 60) / 60 * hourHeight] and
    [(endMinutes - startMinutes) / 60 * hourHeight]. *)
Theorem X7_minutes_within_day
    (evs : list CalendarEvent) (sh : Z) (hh : Q) (vd : Z) (p : Placed) (s e : Z) :
  p ∈ calculateEventPositions evs sh hh vd →
  start (p_event p) = Some s → end_ (p_event p) = Some e → s <= e →
  vd mod JsDate.msPerDay = 0 →
  JsDate.dayOf s = JsDate.dayOf e ∨
    JsDate.dayOf s <= JsDate.dayOf vd <= JsDate.dayOf e →
  ∃ startMinutes endMinutes : Z,
    startMinutes =
      (if (JsDate.dayOf s =? JsDate.dayOf e) || (JsDate.dayOf s =? JsDate.dayOf vd)
       then minutesOfDay s else 0) ∧
    endMinutes =
      (if (JsDate.dayOf s =? JsDate.dayOf e) || (JsDate.dayOf e =? JsDate.dayOf vd)
       then minutesOfDay e else 1439) ∧
    0 <= startMinutes ∧ startMinutes <= endMinutes ∧ endMinutes <= 1439 ∧
    p_top p = (inject_Z (startMinutes - sh * 60) / 60 * hh)%Q ∧
    p_height p = (inject_Z (endMinutes - startMinutes) / 60 * hh)%Q.
Proof.
  intros Hp Hs He Hle Hvd Hday.
  destruct (positions_formula _ _ _ _ _ Hp) as (s' & Hs' & -> & -> & _).
  rewrite Hs in Hs'. injection Hs' as <-.
  destruct (displayed_minutes_ordered vd (p_event p) s e Hs He Hle Hvd Hday)
    as (H0 & Hord & H1).
  destruct (displayed_minutes vd (p_event p) s e Hs He Hvd) as [Hsm Hem].
  rewrite Hsm in H0, Hord. rewrite Hem in Hord, H1. rewrite Hsm, Hem.
  eexists _, _. split; [reflexivity|]. split; [reflexivity|]. done.
Qed.

Lemma X7_minutes_within_day_witness :
  ∃ p, p ∈ calculateEventPositions [evSpan] 0 60 (june2 0 0) ∧
    p_top p = (inject_Z (0 - 0 * 60) / 60 * 60)%Q ∧
    p_height p = (inject_Z (1439 - 0) / 60 * 60)%Q.
Proof.
  eexists. split; [left|].
  destruct (X7_minutes_within_day [evSpan] 0 60 (june2 0 0) _
    (JsDate.at_ 2023 6 1 22 0) (JsDate.at_ 2023 6 3 2 0)
    (list_elem_of_here _ _) eq_refl eq_refl)
    as (sm & em & -> & -> & _ & _ & _ & Ht & Hh).
  - by vm_compute.
  - by vm_compute.
  - right. by vm_compute.
  - split; [exact Ht|exact Hh].
Defined.

(** ** The rendered day and single-day events *)

Lemma newLayout_single_day vd vd' e c :
  isMultiDayEvent e = false → newLayout vd e c = newLayout vd' e c.
Proof.
  intros Hm. unfold newLayout, continuesNextDay_, isContinuedFromPreviousDay.
  rewrite Hm. destruct (start e), (end_ e); by rewrite ?andb_false_r.
Qed.

Lemma placeStep_single_day vd vd' st e :
  isMultiDayEvent e = false → placeStep vd st e = placeStep vd' st e.
Proof.
  intros Hm. unfold placeStep. destruct (start e); [|done].
  destruct (findColumn _ _ _); by rewrite (newLayout_single_day vd vd').
Qed.

Lemma processGroup_single_day vd vd' acc g :
  Forall (λ e, isMultiDayEvent e = false) g →
  processGroup vd acc g = processGroup vd' acc g.
Proof.
  intros Hg. unfold processGroup.
  assert (∀ st, fold_left (placeStep vd) g st = fold_left (placeStep vd') g st)
    as ->; [|done].
  induction Hg as [|e g He _ IH]; intros st; simpl; [done|].
  by rewrite (placeStep_single_day vd vd'), IH.
Qed.

Lemma computeLayouts_single_day vd vd' evs :
  Forall (λ e, isMultiDayEvent e = false) evs →
  computeLayouts evs vd = computeLayouts evs vd'.
Proof.
  intros Hall. unfold computeLayouts.
  assert (Forall (Forall (λ e, isMultiDayEvent e = false))
            (buildGroups (sortedEvents evs))) as Hgs.
  { apply Forall_forall. intros g Hg. apply Forall_forall. intros e He.
    destruct (buildGroups_started _ _ _ Hg He) as [_ Hin].
    rewrite sortedEvents_perm in Hin. rewrite Forall_forall in Hall. auto. }
  generalize (@nil Layout).
  induction Hgs as [|g gs Hg _ IH]; intros acc; simpl; [done|].
  by rewrite (processGroup_single_day vd vd'), IH.
Qed.

Lemma positions_single_day evs sh hh vd vd' :
  Forall (λ e, isMultiDayEvent e = false) evs →
  calculateEventPositions evs sh hh vd = calculateEventPositions evs sh hh vd'.
Proof.
  intros Hall.
  rewrite !positions_of_layouts, (computeLayouts_single_day vd vd') by done.
  assert (∀ ls, Forall (λ l, project sh hh vd l = project sh hh vd' l) ls →
            omap (project sh hh vd) ls = omap (project sh hh vd') ls) as Hgen.
  { induction 1 as [|l ls Hl _ IH]; csimpl; [done|]. by rewrite IH, Hl. }
  apply Hgen. apply Forall_forall. intros l Hl.
  assert (isMultiDayEvent (event l) = false) as Hm.
  { assert (event l ∈ started (sortedEvents evs)) as Hin.
    { rewrite <- (computeLayouts_events evs vd'). by apply list_elem_of_fmap_2. }
    unfold started in Hin. apply list_elem_of_filter in Hin as [_ Hin].
    rewrite sortedEvents_perm in Hin. rewrite Forall_forall in Hall. auto. }
  apply computeLayouts_flags in Hl as (_ & _ & Hn & Hf).
  unfold project, adjustedStartTime, adjustedEndTime. rewrite Hn, Hf.
  unfold continuesNextDay_, isContinuedFromPreviousDay. rewrite Hm.
  destruct (start (event l)), (end_ (event l)); by rewrite ?andb_false_r.
Qed.

(** X8.  The rendered day has no effect on single-day events: when no
    event of the input is multi-day (an end on another calendar day than
    the start), the result is the same for every [viewDate], and every
    rectangle is projected from the event's own start and effective
    end. *)
Theorem X8_view_date_irrelevant_for_single_day
    (evs : list CalendarEvent) (sh : Z) (hh : Q) (vd vd' : Z) :
  Forall (λ e, isMultiDayEvent e = false) evs →
  calculateEventPositions evs sh hh vd = calculateEventPositions evs sh hh vd' ∧
  ∀ p, p ∈ calculateEventPositions evs sh hh vd →
    ∃ s, start (p_event p) = Some s ∧
      p_isMultiDay p = false ∧
      p_continuesNextDay p = false ∧
      p_continuesFromPrevDay p = false ∧
      p_top p = (inject_Z (minutesOfDay s - sh * 60) / 60 * hh)%Q ∧
      p_height p =
        (inject_Z (minutesOfDay (endOr s (p_event p)) - minutesOfDay s)
           / 60 * hh)%Q.
Proof.
  intros Hall.
  assert (∀ p v, p ∈ calculateEventPositions evs sh hh v →
                 isMultiDayEvent (p_event p) = false) as Hsingle.
  { intros p v Hp.
    assert (p_event p ∈ started (sortedEvents evs)) as Hin.
    { rewrite <- (positions_events evs sh hh v). by apply list_elem_of_fmap_2. }
    unfold started in Hin. apply list_elem_of_filter in Hin as [_ Hin].
    rewrite sortedEvents_perm in Hin. rewrite Forall_forall in Hall. auto. }
  split; [by apply positions_single_day|].
  intros p Hp. pose proof (Hsingle p vd Hp) as Hm.
  destruct (positions_formula _ _ _ _ _ Hp)
    as (s & Hs & Ht & Hh & Hmd & Hn & Hf).
  assert (continuesNextDay_ vd (p_event p) = false) as Hn0.
  { unfold continuesNextDay_. rewrite Hm.
    destruct (start (p_event p)), (end_ (p_event p)); by rewrite ?andb_false_r. }
  assert (isContinuedFromPreviousDay vd (p_event p) = false) as Hf0.
  { unfold isContinuedFromPreviousDay. rewrite Hm.
    destruct (start (p_event p)), (end_ (p_event p)); by rewrite ?andb_false_r. }
  exists s. unfold displayedStart, displayedEnd in Ht, Hh.
  rewrite Hn0, Hf0 in *. rewrite Hm in Hmd. by split_and!.
Qed.

Lemma X8_view_date_irrelevant_for_single_day_witness :
  calculateEventPositions [evA; evB; evC] 0 60 (june2 0 0) =
  calculateEventPositions [evA; evB; evC] 0 60 (JsDate.at_ 2024 1 15 13 30).
Proof.
  refine (proj1 (X8_view_date_irrelevant_for_single_day [evA; evB; evC] 0 60
                   (june2 0 0) (JsDate.at_ 2024 1 15 13 30) _)).
  repeat constructor.
Defined.

(** * Properties of the helpers *)

(** ** Days of an event *)

Lemma startOfDay_eq t : startOfDay t = JsDate.dayOf t * JsDate.msPerDay.
Proof. unfold startOfDay, JsDate.setHours. lia. Qed.

Lemma dayOf_startOfDay t : JsDate.dayOf (startOfDay t) = JsDate.dayOf t.
Proof.
  rewrite startOfDay_eq. unfold JsDate.dayOf, JsDate.msPerDay.
  by rewrite Z.div_mul.
Qed.

(** Once [currentDate] has passed [endDate] the loop has stopped by its
    own test: more fuel changes nothing. *)
Lemma daysLoop_enough fuel c e :
  (daysLoopTurns c e ≤ fuel)%nat →
  daysLoop fuel c e = daysLoop (daysLoopTurns c e) c e.
Proof.
  revert c. induction fuel as [|fuel IH]; intros c Hf.
  { by replace (daysLoopTurns c e) with 0%nat by lia. }
  simpl. destruct (c <=? e) eqn:Hce.
  - apply Z.leb_le in Hce.
    assert (daysLoopTurns c e = S (daysLoopTurns (c + JsDate.msPerDay) e)) as Ht.
    { unfold daysLoopTurns, JsDate.msPerDay.
      replace (e - (c + 86400000)) with ((e - c) + (-1) * 86400000) by lia.
      rewrite Z.div_add by lia.
      assert (0 <= (e - c) / 86400000) by (apply Z.div_pos; lia). lia. }
    rewrite Ht. simpl. apply Z.leb_le in Hce. rewrite Hce. f_equal.
    apply IH. lia.
  - apply Z.leb_gt in Hce. unfold daysLoopTurns, JsDate.msPerDay.
    assert ((e - c) / 86400000 < 0) by (apply Z.div_lt_upper_bound; lia).
    by replace (Z.to_nat ((e - c) / 86400000 + 1)) with 0%nat by lia.
Qed.

Lemma daysLoop_midnights n d e :
  daysLoop n (d * JsDate.msPerDay) e =
    (λ k, k * JsDate.msPerDay) <$>
      seqZ d (Z.min (Z.of_nat n) ((e - d * JsDate.msPerDay) / JsDate.msPerDay + 1)).
Proof.
  revert d. induction n as [|n IH]; intros d.
  { rewrite seqZ_nil; [done|]. lia. }
  simpl. unfold JsDate.msPerDay in *.
  destruct (d * 86400000 <=? e) eqn:Hde.
  - apply Z.leb_le in Hde.
    assert (0 <= (e - d * 86400000) / 86400000) by (apply Z.div_pos; lia).
    rewrite seqZ_cons by lia. csimpl. f_equal.
    replace (d * 86400000 + 86400000) with (Z.succ d * 86400000) by lia.
    rewrite IH. f_equal. f_equal.
    replace (e - Z.succ d * 86400000) with ((e - d * 86400000) + (-1) * 86400000)
      by lia.
    rewrite Z.div_add by lia. lia.
  - apply Z.leb_gt in Hde.
    assert ((e - d * 86400000) / 86400000 < 0)
      by (apply Z.div_lt_upper_bound; lia).
    rewrite seqZ_nil; [done|]. lia.
Qed.

Lemma getEventDays_with_end ev s e :
  start ev = Some s → end_ ev = Some e →
  getEventDays ev =
    (λ k, k * JsDate.msPerDay) <$>
      (if JsDate.dayOf s =? JsDate.dayOf e
       then [JsDate.dayOf s]
       else seqZ (JsDate.dayOf s) (JsDate.dayOf e - JsDate.dayOf s + 1)).
Proof.
  intros Hs He. unfold getEventDays. rewrite Hs, He.
  rewrite !dayOf_startOfDay.
  destruct (JsDate.dayOf s =? JsDate.dayOf e) eqn:Hse.
  - by rewrite startOfDay_eq.
  - rewrite !startOfDay_eq, daysLoop_midnights. f_equal. f_equal.
    unfold daysLoopTurns, JsDate.msPerDay.
    replace (JsDate.dayOf e * 86400000 - JsDate.dayOf s * 86400000)
      with ((JsDate.dayOf e - JsDate.dayOf s) * 86400000) by lia.
    rewrite Z.div_mul by lia. lia.
Qed.

(** X9.  [getEventDays] lists the calendar days of an event, each as its
    midnight: none without start; the start day alone without end or when
    start and end fall on the same day; otherwise every day from the start
    day through the end day, once each and in order - and none when the
    end day precedes the start day.  The loop stops by its own test. *)
Theorem X9_getEventDays_lists_each_day (ev : CalendarEvent) :
  (start ev = None → getEventDays ev = []) ∧
  (∀ s, start ev = Some s → end_ ev = None →
        getEventDays ev = [JsDate.dayOf s * JsDate.msPerDay]) ∧
  (∀ s e, start ev = Some s → end_ ev = Some e →
     getEventDays ev =
       (λ k, k * JsDate.msPerDay) <$>
         (if JsDate.dayOf s =? JsDate.dayOf e
          then [JsDate.dayOf s]
          else seqZ (JsDate.dayOf s) (JsDate.dayOf e - JsDate.dayOf s + 1)) ∧
     ∀ fuel, (daysLoopTurns (startOfDay s) (startOfDay e) ≤ fuel)%nat →
       daysLoop fuel (startOfDay s) (startOfDay e) =
       daysLoop (daysLoopTurns (startOfDay s) (startOfDay e))
         (startOfDay s) (startOfDay e)).
Proof.
  unfold getEventDays. split_and!.
  - by intros ->.
  - intros s -> ->. by rewrite startOfDay_eq.
  - intros s e Hs He. split; [|intros fuel; apply daysLoop_enough].
    fold (getEventDays ev). by apply getEventDays_with_end.
Qed.

Lemma X9_getEventDays_lists_each_day_witness :
  getEventDays evSpan =
    (λ k, k * JsDate.msPerDay) <$> [19509; 19510; 19511].
Proof.
  exact (proj1 (proj2 (proj2 (X9_getEventDays_lists_each_day evSpan))
    (JsDate.at_ 2023 6 1 22 0) (JsDate.at_ 2023 6 3 2 0) eq_refl eq_refl)).
Defined.

(** ** The month view *)

Lemma seqZ_length_nat m n : 0 <= n → Z.of_nat (length (seqZ m n)) = n.
Proof. intros Hn. rewrite length_seqZ. lia. Qed.

(** X10.  In the month view an event is listed in the cell of a day
    exactly when it starts on that day; the events of a cell split into
    the multi-day and the single-day ones.  A multi-day event of a cell
    whose end day is after its start day is marked as first day, not as
    last day, with day index 0 and [end day - start day + 1] days in
    all; if its end day precedes its start day it has no days, index -1,
    and is marked as last day but not as first. *)
Theorem X10_month_cell_positions (events : list CalendarEvent) (cloneDay : Z) :
  (∀ ev, ev ∈ monthDayEvents events cloneDay ↔
         ev ∈ events ∧ ∃ s, start ev = Some s ∧ JsDate.dayOf s = JsDate.dayOf cloneDay) ∧
  monthMultiDayEvents (monthDayEvents events cloneDay) ++
    monthSingleDayEvents (monthDayEvents events cloneDay)
    ≡ₚ monthDayEvents events cloneDay ∧
  ∀ ev, ev ∈ monthMultiDayEvents (monthDayEvents events cloneDay) →
    ∃ s e, start ev = Some s ∧ end_ ev = Some e ∧
      JsDate.dayOf s = JsDate.dayOf cloneDay ∧
      JsDate.dayOf s ≠ JsDate.dayOf e ∧
      monthPosition ev cloneDay =
        if JsDate.dayOf s <? JsDate.dayOf e
        then {| isFirstDay := true; isLastDay := false; dayIndex := 0;
                totalDays := JsDate.dayOf e - JsDate.dayOf s + 1 |}
        else {| isFirstDay := false; isLastDay := true; dayIndex := -1;
                totalDays := 0 |}.
Proof.
  assert (∀ ev, ev ∈ monthDayEvents events cloneDay ↔
            ev ∈ events ∧
            ∃ s, start ev = Some s ∧ JsDate.dayOf s = JsDate.dayOf cloneDay)
    as Hcell.
  { intros ev. unfold monthDayEvents. rewrite list_elem_of_filter.
    unfold startsOnDay. destruct (start ev) as [s|]; simpl.
    - rewrite Is_true_true, Z.eqb_eq. split.
      + intros [? ?]. split; [done|]. by exists s.
      + by intros [? (s' & [= <-] & ?)].
    - split; [by intros [[] _]|by intros [_ (? & ? & _)]]. }
  split_and!; [done| |].
  - unfold monthMultiDayEvents, monthSingleDayEvents.
    etrans; [|apply (filter_app_complement (λ ev, endsOnAnotherDay ev))].
    apply Permutation_app; [done|].
    erewrite list_filter_iff; [done|]. intros ev.
    simpl. destruct (endsOnAnotherDay ev); simpl; tauto.
  - intros ev Hev. unfold monthMultiDayEvents in Hev.
    apply list_elem_of_filter in Hev as [Hmulti Hin].
    apply Hcell in Hin as (_ & s & Hs & Hday).
    unfold endsOnAnotherDay in Hmulti. rewrite Hs in Hmulti.
    destruct (end_ ev) as [e|] eqn:He; [|done].
    apply Is_true_true, negb_true_iff, Z.eqb_neq in Hmulti.
    exists s, e. split_and!; try done.
    unfold monthPosition.
    rewrite (getEventDays_with_end ev s e Hs He).
    destruct (JsDate.dayOf s =? JsDate.dayOf e) eqn:Hse;
      [by apply Z.eqb_eq in Hse|].
    rewrite length_fmap.
    destruct (JsDate.dayOf s <? JsDate.dayOf e) eqn:Hlt.
    + apply Z.ltb_lt in Hlt. rewrite seqZ_length_nat by lia.
      rewrite seqZ_cons by lia. unfold findIndex. csimpl.
      assert (JsDate.dayOf (JsDate.dayOf s * JsDate.msPerDay) = JsDate.dayOf cloneDay)
        as Hd.
      { rewrite <- Hday. unfold JsDate.dayOf at 1, JsDate.msPerDay.
        by rewrite Z.div_mul. }
      apply Z.eqb_eq in Hd. rewrite Hd. simpl. f_equal.
      destruct (JsDate.dayOf e - JsDate.dayOf s + 1 - 1) eqn:E; [lia|done..].
    + apply Z.ltb_ge in Hlt. rewrite seqZ_nil by lia. done.
Qed.

Lemma X10_month_cell_positions_witness :
  ∃ s e, start evSpan = Some s ∧ end_ evSpan = Some e ∧
    monthPosition evSpan (JsDate.at_ 2023 6 1 0 0) =
      {| isFirstDay := true; isLastDay := false; dayIndex := 0; totalDays := 3 |}.
Proof.
  destruct (proj2 (proj2 (X10_month_cell_positions [evA; evSpan]
              (JsDate.at_ 2023 6 1 0 0))) evSpan)
    as (s & e & Hs & He & _ & _ & Hpos).
  { vm_compute. left. }
  exists s, e. split; [exact Hs|]. split; [exact He|].
  injection Hs as <-. injection He as <-. exact Hpos.
Defined.

(** ** Days of a multi-day event in the year view *)

Lemma dayOf_add_days t k :
  JsDate.dayOf (t + k * JsDate.msPerDay) = JsDate.dayOf t + k.
Proof. unfold JsDate.dayOf, JsDate.msPerDay. by rewrite Z.div_add. Qed.

Lemma dayStringsLoop_days n s e :
  dayStringsLoop n s e =
    seqZ (JsDate.dayOf s) (Z.min (Z.of_nat n) ((e - s) / JsDate.msPerDay + 1)).
Proof.
  revert s. induction n as [|n IH]; intros s.
  { rewrite seqZ_nil; [done|]. lia. }
  simpl. destruct (s <=? e) eqn:Hse.
  - apply Z.leb_le in Hse.
    assert (0 <= (e - s) / JsDate.msPerDay)
      by (apply Z.div_pos; unfold JsDate.msPerDay; lia).
    rewrite seqZ_cons by lia. f_equal. rewrite IH.
    replace (s + JsDate.msPerDay) with (s + 1 * JsDate.msPerDay) by lia.
    rewrite dayOf_add_days.
    replace (e - (s + 1 * JsDate.msPerDay)) with ((e - s) + (-1) * JsDate.msPerDay)
      by lia.
    rewrite Z.div_add by (unfold JsDate.msPerDay; lia).
    f_equal; lia.
  - apply Z.leb_gt in Hse.
    assert ((e - s) / JsDate.msPerDay < 0)
      by (apply Z.div_lt_upper_bound; unfold JsDate.msPerDay; lia).
    rewrite seqZ_nil; [done|]. lia.
Qed.

Lemma days_between s e :
  (e - s) / JsDate.msPerDay =
    JsDate.dayOf e - JsDate.dayOf s
      - (if e mod JsDate.msPerDay <? s mod JsDate.msPerDay then 1 else 0).
Proof.
  unfold JsDate.dayOf, JsDate.msPerDay.
  destruct (e mod 86400000 <? s mod 86400000) eqn:E;
    [apply Z.ltb_lt in E|apply Z.ltb_ge in E];
    Z.to_euclidean_division_equations; lia.
Qed.

(** X11.  For an event whose end falls on a later calendar day than its
    start, [getMultiDayEventDays] of the year view lists the days from the
    start day on, one per 24 hours elapsed: it agrees with the days of
    [getEventDays] when the time of day of the end is not earlier than the
    time of day of the start, and otherwise leaves out the end day. *)
Theorem X11_year_view_days (ev : CalendarEvent) (s e : Z) :
  start ev = Some s → end_ ev = Some e →
  JsDate.dayOf s < JsDate.dayOf e →
  JsDate.dayOf <$> getEventDays ev =
    seqZ (JsDate.dayOf s) (JsDate.dayOf e - JsDate.dayOf s + 1) ∧
  getMultiDayEventDays ev =
    seqZ (JsDate.dayOf s)
      (if e mod JsDate.msPerDay <? s mod JsDate.msPerDay
       then JsDate.dayOf e - JsDate.dayOf s
       else JsDate.dayOf e - JsDate.dayOf s + 1).
Proof.
  intros Hs He Hlt.
  assert ((JsDate.dayOf s =? JsDate.dayOf e) = false) as Hne
    by (apply Z.eqb_neq; lia).
  split.
  - rewrite (getEventDays_with_end ev s e Hs He), Hne.
    rewrite <- list_fmap_compose.
    erewrite list_fmap_ext; [apply list_fmap_id|].
    intros i k _. simpl. unfold JsDate.dayOf, JsDate.msPerDay.
    by rewrite Z.div_mul.
  - unfold getMultiDayEventDays. rewrite Hs, He, Hne.
    rewrite dayStringsLoop_days. f_equal.
    unfold daysLoopTurns. rewrite days_between.
    destruct (e mod JsDate.msPerDay <? s mod JsDate.msPerDay); lia.
Qed.

Lemma X11_year_view_days_witness :
  getMultiDayEventDays evSpan = seqZ 19509 2 ∧
  JsDate.dayOf <$> getEventDays evSpan = seqZ 19509 3.
Proof.
  destruct (X11_year_view_days evSpan (JsDate.at_ 2023 6 1 22 0)
              (JsDate.at_ 2023 6 3 2 0) eq_refl eq_refl) as [H1 H2].
  - by vm_compute.
  - split; [exact H2|exact H1].
Defined.

(** ** Rounding to a grid of minutes *)

Lemma mathFloor_div (t c : Z) :
  mathFloor (inject_Z t / inject_Z c) = t / c.
Proof. unfold mathFloor. by rewrite <- Zdiv_Qdiv. Qed.

Lemma mathRound_div (t c : Z) :
  0 < c → mathRound (inject_Z t / inject_Z c) = (2 * t + c) / (2 * c).
Proof.
  intros Hc. unfold mathRound. rewrite Zdiv_Qdiv.
  apply Qfloor_comp.
  rewrite inject_Z_plus, !inject_Z_mult. field.
  intros H0. apply (inject_Z_injective c 0) in H0. lia.
Qed.

Lemma floor_grid (t c : Z) :
  0 < c →
  (t / c * c) mod c = 0 ∧ t / c * c <= t < t / c * c + c ∧
  (t / c * c) / c * c = t / c * c.
Proof.
  intros Hc. split_and!.
  - by apply Z.mod_mul; lia.
  - pose proof (Z.mul_div_le t c Hc). lia.
  - pose proof (Z.mod_pos_bound t c Hc). pose proof (Z.div_mod t c). lia.
  - by rewrite Z.div_mul by lia.
Qed.

Lemma round_grid (t c : Z) :
  0 < c →
  let r := (2 * t + c) / (2 * c) * c in
  r mod c = 0 ∧ 2 * r - c <= 2 * t < 2 * r + c ∧
  (t mod c = 0 → r = t).
Proof.
  intros Hc r. unfold r. split_and!.
  - by apply Z.mod_mul; lia.
  - pose proof (Z.mul_div_le (2 * t + c) (2 * c) ltac:(lia)). lia.
  - pose proof (Z.mod_pos_bound (2 * t + c) (2 * c) ltac:(lia)).
    pose proof (Z.div_mod (2 * t + c) (2 * c) ltac:(lia)). lia.
  - intros Hm. apply Z.mod_divide in Hm as [k ->]; [|lia].
    replace (2 * (k * c) + c) with (c + k * (2 * c)) by lia.
    rewrite Z.div_add by lia. rewrite Z.div_small by lia. lia.
Qed.

(** X12.  Rounding down: both rounding functions return a multiple of
    their step (30 and 15 minutes) that is at most the given time and less
    than one step below it; a time on the grid is returned unchanged, so
    rounding twice is rounding once. *)
Theorem X12_round_down (t : Z) :
  let r30 := roundToNearestThirtyMinutes t true in
  let r15 := roundToNearestFifteenMinutes t down in
  (r30 mod 1800000 = 0 ∧ r30 <= t < r30 + 1800000 ∧
   roundToNearestThirtyMinutes r30 true = r30) ∧
  (r15 mod 900000 = 0 ∧ r15 <= t < r15 + 900000 ∧
   roundToNearestFifteenMinutes r15 down = r15).
Proof.
  intros r30 r15. subst r30 r15.
  unfold roundToNearestThirtyMinutes, roundToNearestFifteenMinutes.
  cbv zeta. rewrite !mathFloor_div.
  change (1000 * 60 * 30) with 1800000. change (1000 * 60 * 15) with 900000.
  pose proof (floor_grid t 1800000 ltac:(lia)).
  pose proof (floor_grid t 900000 ltac:(lia)). tauto.
Qed.

(** X13.  Rounding to the nearest: both rounding functions return a
    multiple of their step that is at most half a step away from the given
    time, a time exactly between two grid points going to the later one;
    a time on the grid is returned unchanged. *)
Theorem X13_round_nearest (t : Z) :
  let r30 := roundToNearestThirtyMinutes t false in
  let r15 := roundToNearestFifteenMinutes t nearest in
  (r30 mod 1800000 = 0 ∧ r30 - 900000 <= t < r30 + 900000 ∧
   (t mod 1800000 = 0 → r30 = t)) ∧
  (r15 mod 900000 = 0 ∧ r15 - 450000 <= t < r15 + 450000 ∧
   (t mod 900000 = 0 → r15 = t)).
Proof.
  intros r30 r15. subst r30 r15.
  unfold roundToNearestThirtyMinutes, roundToNearestFifteenMinutes.
  cbv zeta. rewrite !mathRound_div by lia.
  change (1000 * 60 * 30) with 1800000. change (1000 * 60 * 15) with 900000.
  pose proof (round_grid t 1800000 ltac:(lia)) as H30.
  pose proof (round_grid t 900000 ltac:(lia)) as H15.
  cbv zeta in H30, H15.
  change (2 * 1800000) with 3600000 in *. change (2 * 900000) with 1800000 in *.
  split; split_and!; try tauto; lia.
Qed.

Lemma X13_round_nearest_witness :
  roundToNearestFifteenMinutes (june2 10 15) nearest = june2 10 15.
Proof.
  refine (proj2 (proj2 (proj2 (X13_round_nearest (june2 10 15)))) _).
  reflexivity.
Defined.

(** ** Days on which an event is shown *)

Lemma day_bounds t d :
  JsDate.dayOf t = d ↔ d * JsDate.msPerDay <= t < d * JsDate.msPerDay + JsDate.msPerDay.
Proof.
  unfold JsDate.dayOf, JsDate.msPerDay. split.
  - intros <-. pose proof (Z.mod_pos_bound t 86400000 ltac:(lia)).
    pose proof (Z.div_mod t 86400000 ltac:(lia)). lia.
  - intros H. symmetry. apply (Z.div_unique t 86400000 d (t - d * 86400000)); lia.
Qed.

Lemma day_lt t d : JsDate.dayOf t < d ↔ t < d * JsDate.msPerDay.
Proof.
  pose proof (proj1 (day_bounds t (JsDate.dayOf t)) eq_refl).
  unfold JsDate.msPerDay in *. split; intros; nia.
Qed.

Lemma day_le t d : d <= JsDate.dayOf t ↔ d * JsDate.msPerDay <= t.
Proof.
  pose proof (proj1 (day_bounds t (JsDate.dayOf t)) eq_refl).
  unfold JsDate.msPerDay in *. split; intros; nia.
Qed.

Lemma startOfDay_endOfDay day :
  startOfDay day = JsDate.dayOf day * JsDate.msPerDay ∧
  endOfDay day = JsDate.dayOf day * JsDate.msPerDay + JsDate.msPerDay - 1.
Proof.
  unfold startOfDay, endOfDay, JsDate.setHours, JsDate.msPerDay,
    JsDate.msPerHour, JsDate.msPerMinute. lia.
Qed.

Lemma active_on_day_iff (ev : CalendarEvent) (day s : Z) :
  start ev = Some s → s <= endOr s ev →
  (isEventActiveOnDay ev day = true ↔
     JsDate.dayOf s <= JsDate.dayOf day <= JsDate.dayOf (endOr s ev)).
Proof.
  intros Hs Hle. unfold isEventActiveOnDay. rewrite Hs.
  destruct (startOfDay_endOfDay day) as [-> ->].
  set (e := endOr s ev) in *. set (d := JsDate.dayOf day).
  pose proof (proj1 (day_bounds s (JsDate.dayOf s)) eq_refl).
  pose proof (proj1 (day_bounds e (JsDate.dayOf e)) eq_refl).
  unfold JsDate.msPerDay in *.
  rewrite !orb_true_iff, !andb_true_iff.
  rewrite !Z.geb_le, !Z.leb_le.
  split; intros ?; nia.
Qed.

(** X14.  [isEventActiveOnDay] of the week view holds for an event with a
    start exactly when its start falls on the day, or its effective end
    falls on the day, or the day lies strictly between the two days; for
    an event that does not end before it starts these are the days from
    its start day through the day of its effective end.  An event without
    start is active on no day. *)
Theorem X14_active_on_day (ev : CalendarEvent) (day : Z) :
  (start ev = None → isEventActiveOnDay ev day = false) ∧
  ∀ s, start ev = Some s →
    let e := endOr s ev in
    let d := JsDate.dayOf day in
    (isEventActiveOnDay ev day = true ↔
       JsDate.dayOf s = d ∨ JsDate.dayOf e = d ∨
       (JsDate.dayOf s < d ∧ d < JsDate.dayOf e)) ∧
    (s <= e →
     (isEventActiveOnDay ev day = true ↔
        JsDate.dayOf s <= d <= JsDate.dayOf e)).
Proof.
  unfold isEventActiveOnDay. split; [by intros ->|].
  intros s ->.
  destruct (startOfDay_endOfDay day) as [-> ->].
  set (e := endOr s ev). set (d := JsDate.dayOf day).
  pose proof (day_bounds s (JsDate.dayOf s)) as [Hs _].
  pose proof (day_bounds e (JsDate.dayOf e)) as [He _].
  specialize (Hs eq_refl). specialize (He eq_refl).
  unfold JsDate.msPerDay in *.
  rewrite !orb_true_iff, !andb_true_iff.
  rewrite !Z.geb_le, !Z.leb_le.
  split; [|intros Hle]; split; intros H; nia.
Qed.

Lemma X14_active_on_day_witness :
  isEventActiveOnDay evSpan (june2 14 0) = true.
Proof.
  apply (proj2 (proj2 (X14_active_on_day evSpan (june2 14 0))
                 (JsDate.at_ 2023 6 1 22 0) eq_refl)).
  - by vm_compute.
  - by vm_compute.
Defined.

(** ** The week view *)

Lemma parseDay_bounds tz d :
  0 <= tz < JsDate.msPerDay →
  d * JsDate.msPerDay <= parseDay tz d < d * JsDate.msPerDay + JsDate.msPerDay.
Proof. unfold parseDay. lia. Qed.

Lemma isMultiDayEvent_with_end (ev : CalendarEvent) s e :
  start ev = Some s → end_ ev = Some e →
  isMultiDayEvent ev = negb (JsDate.dayOf s =? JsDate.dayOf e).
Proof. intros Hs He. unfold isMultiDayEvent. by rewrite Hs, He. Qed.

(** An event that passes the test of the timed grid touches the day. *)
Lemma weekTimedTest_range tz dayItem (ev : ViewEvent) s e :
  weekTimedTest tz dayItem ev = true →
  start ev = Some s → end_ ev = Some e → s <= e →
  0 <= tz < JsDate.msPerDay →
  JsDate.dayOf s = JsDate.dayOf e ∨
    JsDate.dayOf s <= JsDate.dayOf dayItem <= JsDate.dayOf e.
Proof.
  unfold weekTimedTest. intros Ht Hs He Hle Htz. rewrite Hs, He in Ht.
  destruct (isHoliday ev); [done|].
  destruct (JsDate.dayOf s =? JsDate.dayOf e) eqn:Hse; simpl in Ht.
  { left. by apply Z.eqb_eq. }
  right. apply Z.eqb_neq in Hse.
  pose proof (parseDay_bounds tz (JsDate.dayOf dayItem) Htz) as Hp.
  assert (JsDate.dayOf s <= JsDate.dayOf e) as Hdays.
  { apply day_le. pose proof (proj1 (day_bounds s _) eq_refl). lia. }
  destruct (JsDate.dayOf s =? JsDate.dayOf dayItem) eqn:Hsd;
    [apply Z.eqb_eq in Hsd; lia|].
  destruct (JsDate.dayOf e =? JsDate.dayOf dayItem) eqn:Hed;
    [apply Z.eqb_eq in Hed; lia|].
  simpl in Ht. apply andb_true_iff in Ht as [Ha Hb].
  apply Z.geb_le in Ha. apply Z.leb_le in Hb. split.
  - assert (JsDate.dayOf s < JsDate.dayOf dayItem + 1); [|lia].
    apply day_lt. lia.
  - apply day_le. lia.
Qed.

(** X15.  In the week view a non-holiday event with a start that is not
    multi-day is never in the all-day strip and is in the timed grid of
    exactly its start day.  A non-holiday multi-day event that does not
    end before it starts is, in a zone at or east of Greenwich, in the
    all-day strip and in the timed grid of the same days: those from its
    start day through its end day. *)
Theorem X15_week_strip_and_grid (tz dayItem : Z) (ev : ViewEvent) (s : Z) :
  start ev = Some s → isHoliday ev = false →
  (isMultiDayEvent ev = false →
     weekAllDayTest dayItem ev = false ∧
     weekTimedTest tz dayItem ev = (JsDate.dayOf s =? JsDate.dayOf dayItem)) ∧
  (∀ e, end_ ev = Some e → JsDate.dayOf s ≠ JsDate.dayOf e → s <= e →
     0 <= tz < JsDate.msPerDay →
     weekAllDayTest dayItem ev = weekTimedTest tz dayItem ev ∧
     (weekTimedTest tz dayItem ev = true ↔
        JsDate.dayOf s <= JsDate.dayOf dayItem <= JsDate.dayOf e)).
Proof.
  intros Hs Hh. split.
  - intros Hm. unfold weekAllDayTest, weekTimedTest.
    rewrite Hs, Hh, Hm. simpl. split; [done|].
    unfold isMultiDayEvent in Hm. rewrite Hs in Hm.
    destruct (end_ ev) as [e|]; [|done].
    apply negb_false_iff in Hm. by rewrite Hm.
  - intros e He Hne Hle Htz.
    assert (isMultiDayEvent ev = true) as Hm.
    { rewrite (isMultiDayEvent_with_end ev s e Hs He).
      by apply negb_true_iff, Z.eqb_neq. }
    assert (weekTimedTest tz dayItem ev = true ↔
            JsDate.dayOf s <= JsDate.dayOf dayItem <= JsDate.dayOf e) as Hgrid.
    { split.
      - intros Ht.
        by destruct (weekTimedTest_range tz dayItem ev s e Ht Hs He Hle Htz).
      - intros Hr. unfold weekTimedTest. rewrite Hs, He, Hh.
        apply Z.eqb_neq in Hne. rewrite Hne. simpl.
        destruct (JsDate.dayOf s =? JsDate.dayOf dayItem) eqn:H1; [done|].
        destruct (JsDate.dayOf e =? JsDate.dayOf dayItem) eqn:H2; [done|].
        simpl. apply Z.eqb_neq in H1, H2.
        pose proof (parseDay_bounds tz (JsDate.dayOf dayItem) Htz) as Hp.
        assert (s < JsDate.dayOf dayItem * JsDate.msPerDay)
          by (apply day_lt; lia).
        assert ((JsDate.dayOf dayItem + 1) * JsDate.msPerDay <= e)
          by (apply day_le; lia).
        apply andb_true_iff. rewrite Z.geb_le, Z.leb_le. lia. }
    split; [|done].
    assert (weekAllDayTest dayItem ev = true ↔
            JsDate.dayOf s <= JsDate.dayOf dayItem <= JsDate.dayOf e) as Hstrip.
    { unfold weekAllDayTest. rewrite Hs, Hh, Hm. simpl.
      assert (endOr s ev = e) as Hend by (unfold endOr; by rewrite He).
      pose proof (active_on_day_iff ev dayItem s Hs) as Hact.
      rewrite Hend in Hact. specialize (Hact Hle).
      destruct (isEventActiveOnDay ev dayItem); simpl; split; intros H;
        try done; by apply Hact. }
    destruct (weekAllDayTest dayItem ev), (weekTimedTest tz dayItem ev);
      try done.
    + symmetry. apply Hgrid, Hstrip. done.
    + apply Hstrip, Hgrid. done.
Qed.

Lemma X15_week_strip_and_grid_witness :
  weekAllDayTest (june2 0 0) viewSpan = weekTimedTest twoHoursEast (june2 0 0) viewSpan.
Proof.
  refine (proj1 (proj2 (X15_week_strip_and_grid twoHoursEast (june2 0 0) viewSpan
    (JsDate.at_ 2023 6 1 22 0) eq_refl eq_refl)
    (JsDate.at_ 2023 6 3 2 0) eq_refl _ _ _)); by vm_compute.
Defined.

Lemma withStart_started (evs : list ViewEvent) :
  Forall (λ e, is_Some (start e)) (withStart evs).
Proof.
  apply Forall_forall. intros e (ve & -> & Hve)%list_elem_of_fmap.
  by apply list_elem_of_filter in Hve as [? _].
Qed.

Lemma positions_event_in evs sh hh vd p :
  p ∈ calculateEventPositions evs sh hh vd → p_event p ∈ evs.
Proof.
  intros Hp.
  assert (p_event p ∈ started (sortedEvents evs)) as Hin.
  { rewrite <- (positions_events evs sh hh vd). by apply list_elem_of_fmap_2. }
  unfold started in Hin. apply list_elem_of_filter in Hin as [_ Hin].
  by rewrite sortedEvents_perm in Hin.
Qed.

Lemma started_columnsDisjoint evs vd :
  Forall (λ e, is_Some (start e)) evs → columnsDisjoint evs vd.
Proof.
  intros Hall g i j li lj si ti sj tj Hg Hij Hi Hj Hcol Hli Hlj.
  apply interval_eff in Hli as [_ <-]. apply interval_eff in Hlj as [<- _].
  eapply packGroup_disjoint; eauto using groups_orderly.
Qed.

(** X16.  A day column of the week view: every event handed to the layout
    has a start, so no two events of one column of one cluster overlap,
    whatever the events.  In a zone at or east of Greenwich and for a day
    given by its midnight, the rectangle of every event that has an end
    not before its start is projected from minutes that lie within the
    day and in order, [0 <= startMinutes <= endMinutes <= 1439]: the
    events of the column all touch its day. *)
Theorem X16_week_column_layout
    (tz : Z) (events : list ViewEvent) (sh : Z) (hh : Q) (dayItem : Z) :
  columnsDisjoint (withStart (weekDayEvents tz events dayItem)) dayItem ∧
  (0 <= tz < JsDate.msPerDay → dayItem mod JsDate.msPerDay = 0 →
   ∀ p s e, p ∈ weekLayouts tz events sh hh dayItem →
     start (p_event p) = Some s → end_ (p_event p) = Some e → s <= e →
     (JsDate.dayOf s = JsDate.dayOf e ∨
      JsDate.dayOf s <= JsDate.dayOf dayItem <= JsDate.dayOf e) ∧
     ∃ startMinutes endMinutes : Z,
       0 <= startMinutes ∧ startMinutes <= endMinutes ∧ endMinutes <= 1439 ∧
       p_top p = (inject_Z (startMinutes - sh * 60) / 60 * hh)%Q ∧
       p_height p = (inject_Z (endMinutes - startMinutes) / 60 * hh)%Q).
Proof.
  split.
  - apply started_columnsDisjoint, withStart_started.
  - intros Htz Hmid p s e Hp Hs He Hle. unfold weekLayouts in Hp.
    pose proof (positions_event_in _ _ _ _ _ Hp) as Hin.
    unfold withStart in Hin.
    apply list_elem_of_fmap in Hin as (ve & Hve & Hin).
    apply list_elem_of_filter in Hin as [_ Hin].
    unfold weekDayEvents in Hin. apply list_elem_of_filter in Hin as [Ht _].
    apply Is_true_true in Ht. rewrite Hve in Hs, He.
    pose proof (weekTimedTest_range tz dayItem ve s e Ht Hs He Hle Htz) as Hday.
    rewrite <- Hve in Hs, He. split; [exact Hday|].
    destruct (positions_formula _ _ _ _ _ Hp) as (s' & Hs' & -> & -> & _).
    rewrite Hs in Hs'. injection Hs' as <-.
    destruct (displayed_minutes_ordered dayItem (p_event p) s e Hs He Hle Hmid Hday)
      as (H0 & Hord & H1).
    eexists _, _. split_and!; [exact H0|exact Hord|exact H1|reflexivity|reflexivity].
Qed.

Lemma X16_week_column_layout_witness :
  ∃ p startMinutes endMinutes,
    p ∈ weekLayouts twoHoursEast [viewA; viewSpan; viewB] 0 60 (june2 0 0) ∧
    0 <= startMinutes ∧ startMinutes <= endMinutes ∧ endMinutes <= 1439 ∧
    p_top p = (inject_Z (startMinutes - 0 * 60) / 60 * 60)%Q ∧
    p_height p = (inject_Z (endMinutes - startMinutes) / 60 * 60)%Q.
Proof.
  eexists.
  destruct (proj2 (X16_week_column_layout twoHoursEast
    [viewA; viewSpan; viewB] 0 60 (june2 0 0))
    ltac:(by vm_compute) ltac:(by vm_compute) _
    (JsDate.at_ 2023 6 1 22 0) (JsDate.at_ 2023 6 3 2 0)
    (list_elem_of_here _ _) eq_refl eq_refl ltac:(by vm_compute))
    as (_ & sm & em & H).
  exists sm, em. split; [left|exact H].
Defined.

(** ** The day view *)

Lemma dayTimedTest_single cur (ev : ViewEvent) :
  dayTimedTest cur ev = true →
  ∃ s, start ev = Some s ∧ JsDate.dayOf s = JsDate.dayOf cur ∧
       isHoliday ev = false ∧ isMultiDayEvent ev = false.
Proof.
  unfold dayTimedTest, isMultiDayEvent.
  destruct (start ev) as [s|]; [|done]. intros Ht. exists s.
  destruct (isHoliday ev); [done|].
  destruct (end_ ev) as [e|].
  - destruct (JsDate.dayOf s =? JsDate.dayOf e); simpl in *; [|done].
    by apply Z.eqb_eq in Ht.
  - by apply Z.eqb_eq in Ht.
Qed.

Lemma dayTimedTest_same_day cur cur' ev :
  JsDate.dayOf cur' = JsDate.dayOf cur →
  dayTimedTest cur' ev = dayTimedTest cur ev.
Proof. intros H. unfold dayTimedTest. by rewrite H. Qed.

Lemma dayTimedEvents_single events cur :
  Forall (λ e, isMultiDayEvent e = false) (withStart (dayTimedEvents events cur)).
Proof.
  apply Forall_forall. intros e (ve & -> & Hve)%list_elem_of_fmap.
  apply list_elem_of_filter in Hve as [_ Hve].
  apply list_elem_of_filter in Hve as [Ht _]. apply Is_true_true in Ht.
  by destruct (dayTimedTest_single cur ve Ht) as (s & _ & _ & _ & ?).
Qed.

(** X17.  The timed grid of the day view: only the calendar day of
    [currentDate] matters, not its time of day; every rectangle belongs to
    a non-multi-day event that starts on that day, carries no multi-day or
    continuation flag and is projected from the event's own start and
    effective end; and no two events of one column of one cluster
    overlap. *)
Theorem X17_day_view_grid
    (events : list ViewEvent) (sh : Z) (hh : Q) (currentDate : Z) :
  (∀ cur', JsDate.dayOf cur' = JsDate.dayOf currentDate →
     dayLayouts events sh hh cur' = dayLayouts events sh hh currentDate) ∧
  columnsDisjoint (withStart (dayTimedEvents events currentDate)) currentDate ∧
  ∀ p, p ∈ dayLayouts events sh hh currentDate →
    ∃ s, start (p_event p) = Some s ∧
      JsDate.dayOf s = JsDate.dayOf currentDate ∧
      p_isMultiDay p = false ∧
      p_continuesNextDay p = false ∧
      p_continuesFromPrevDay p = false ∧
      p_top p = (inject_Z (minutesOfDay s - sh * 60) / 60 * hh)%Q ∧
      p_height p =
        (inject_Z (minutesOfDay (endOr s (p_event p)) - minutesOfDay s)
           / 60 * hh)%Q.
Proof.
  split_and!.
  - intros cur' Hday. unfold dayLayouts.
    assert (dayTimedEvents events cur' = dayTimedEvents events currentDate) as ->.
    { unfold dayTimedEvents. apply list_filter_iff. intros ev.
      by rewrite (dayTimedTest_same_day currentDate cur'). }
    apply positions_single_day, dayTimedEvents_single.
  - apply started_columnsDisjoint, withStart_started.
  - intros p Hp. unfold dayLayouts in Hp.
    pose proof (positions_event_in _ _ _ _ _ Hp) as Hin.
    unfold withStart in Hin.
    apply list_elem_of_fmap in Hin as (ve & Hve & Hin).
    apply list_elem_of_filter in Hin as [_ Hin].
    apply list_elem_of_filter in Hin as [Ht _]. apply Is_true_true in Ht.
    destruct (dayTimedTest_single currentDate ve Ht) as (s & Hs & Hd & _ & Hm).
    rewrite <- Hve in Hs, Hm.
    destruct (positions_formula _ _ _ _ _ Hp)
      as (s' & Hs' & Htop & Hh & Hmd & Hn & Hf).
    rewrite Hs in Hs'. injection Hs' as <-.
    assert (continuesNextDay_ currentDate (p_event p) = false) as Hn0.
    { unfold continuesNextDay_. rewrite Hm.
      destruct (start (p_event p)), (end_ (p_event p)); by rewrite ?andb_false_r. }
    assert (isContinuedFromPreviousDay currentDate (p_event p) = false) as Hf0.
    { unfold isContinuedFromPreviousDay. rewrite Hm.
      destruct (start (p_event p)), (end_ (p_event p)); by rewrite ?andb_false_r. }
    exists s. unfold displayedStart, displayedEnd in Htop, Hh.
    rewrite Hn0, Hf0 in *. rewrite Hm in Hmd. by split_and!.
Qed.

Lemma X17_day_view_grid_witness :
  dayLayouts [viewA; viewSpan; viewB] 0 60 (june2 13 30) =
  dayLayouts [viewA; viewSpan; viewB] 0 60 (june2 0 0).
Proof.
  refine (proj1 (X17_day_view_grid [viewA; viewSpan; viewB] 0 60 (june2 0 0))
            (june2 13 30) _).
  by vm_compute.
Defined.

Lemma dayOf_parseDay tz d :
  (0 <= tz < JsDate.msPerDay → JsDate.dayOf (parseDay tz d) = d) ∧
  (- JsDate.msPerDay <= tz < 0 → JsDate.dayOf (parseDay tz d) = d - 1).
Proof.
  unfold parseDay. split; intros Htz; apply day_bounds; lia.
Qed.

Lemma dayAllDayTest_multi tz currentDate (ev : ViewEvent) s e :
  start ev = Some s → end_ ev = Some e → isHoliday ev = false →
  JsDate.dayOf s ≠ JsDate.dayOf e →
  let d := JsDate.dayOf currentDate in
  let m := JsDate.dayOf (parseDay tz d) * JsDate.msPerDay in
  dayAllDayTest tz currentDate ev = true ↔
    JsDate.dayOf s = d ∨ (s <= m ∧ m < e).
Proof.
  intros Hs He Hh Hne d m. unfold dayAllDayTest. rewrite Hs, He, Hh. simpl.
  apply Z.eqb_neq in Hne. rewrite Hne. simpl. fold d.
  rewrite startOfDay_eq. fold m.
  destruct (JsDate.dayOf s =? d) eqn:Hsd; simpl.
  - apply Z.eqb_eq in Hsd. split; [by left|done].
  - apply Z.eqb_neq in Hsd.
    destruct ((m >=? s) && (m <? e)) eqn:Hc.
    + apply andb_true_iff in Hc as [Ha Hb].
      apply Z.geb_le in Ha. apply Z.ltb_lt in Hb. split; [by right|done].
    + split; [done|]. intros [?|[Ha Hb]]; [done|].
      apply andb_false_iff in Hc as [Hc|Hc].
      * rewrite Z.geb_leb in Hc. apply Z.leb_gt in Hc. lia.
      * apply Z.ltb_ge in Hc. lia.
Qed.

(** X18.  In the day view no event is both in the all-day strip and in
    the timed grid.  A non-holiday event whose end falls on another
    calendar day than its start and not before it is in the all-day strip
    of day [d], in a zone at or east of Greenwich, exactly when it starts
    on [d] or earlier and ends after the midnight that begins [d]; west of
    Greenwich the strip is computed from the midnight before, so such an
    event is in the strip when it starts on [d], or starts at or before
    the midnight that begins the day before [d] and ends after it. *)
Theorem X18_day_view_strip (tz currentDate : Z) (ev : ViewEvent) :
  dayAllDayTest tz currentDate ev && dayTimedTest currentDate ev = false ∧
  ∀ s e, start ev = Some s → end_ ev = Some e → isHoliday ev = false →
    JsDate.dayOf s ≠ JsDate.dayOf e → s <= e →
    let d := JsDate.dayOf currentDate in
    (0 <= tz < JsDate.msPerDay →
     (dayAllDayTest tz currentDate ev = true ↔
        JsDate.dayOf s <= d ∧ d * JsDate.msPerDay < e)) ∧
    (- JsDate.msPerDay <= tz < 0 →
     (dayAllDayTest tz currentDate ev = true ↔
        JsDate.dayOf s = d ∨
        (s <= (d - 1) * JsDate.msPerDay ∧ (d - 1) * JsDate.msPerDay < e))).
Proof.
  split.
  - unfold dayAllDayTest, dayTimedTest.
    destruct (start ev) as [s|]; [|done].
    destruct (isHoliday ev); simpl; [by rewrite andb_false_r|].
    destruct (end_ ev) as [e|]; [|done].
    destruct (JsDate.dayOf s =? JsDate.dayOf e); simpl; [done|].
    by rewrite andb_false_r.
  - intros s e Hs He Hh Hne Hle d.
    pose proof (dayAllDayTest_multi tz currentDate ev s e Hs He Hh Hne) as Hiff.
    cbv zeta in Hiff. fold d in Hiff.
    destruct (dayOf_parseDay tz d) as [Heast Hwest].
    pose proof (proj1 (day_bounds s _) eq_refl) as Hbs.
    pose proof (proj1 (day_bounds e _) eq_refl) as Hbe.
    assert (JsDate.dayOf s < JsDate.dayOf e) as Hlt.
    { assert (JsDate.dayOf s <= JsDate.dayOf e); [|lia]. apply day_le. lia. }
    split; intros Htz.
    + rewrite Hiff, (Heast Htz). split.
      * intros [Hd|[Ha Hb]].
        -- split; [lia|]. rewrite <- Hd.
           assert ((JsDate.dayOf s + 1) * JsDate.msPerDay <= e)
             by (apply day_le; lia).
           unfold JsDate.msPerDay in *. lia.
        -- split; [|done].
           assert (JsDate.dayOf s < d + 1); [|lia].
           apply day_lt. unfold JsDate.msPerDay in *. lia.
      * intros [Hd Hb].
        destruct (decide (JsDate.dayOf s = d)) as [?|Hn]; [by left|].
        right. split; [|done].
        assert (s < d * JsDate.msPerDay); [|lia]. apply day_lt. lia.
    + by rewrite Hiff, (Hwest Htz).
Qed.

Lemma X18_day_view_strip_witness :
  dayAllDayTest twoHoursEast (june2 13 30) viewSpan = true.
Proof.
  apply (proj1 (proj2 (X18_day_view_strip twoHoursEast (june2 13 30) viewSpan)
    (JsDate.at_ 2023 6 1 22 0) (JsDate.at_ 2023 6 3 2 0)
    eq_refl eq_refl eq_refl ltac:(by vm_compute) ltac:(by vm_compute))
    ltac:(by vm_compute)).
  by vm_compute.
Defined.

(** ** Events without start *)






(** ** The year view *)

(** The test of the day: for a cell given by its midnight, a multi-day
    event that does not end before it starts passes on the days from its
    start day through its end day; any other event with a start passes on
    its start day. *)
Lemma yearDayTest_iff (date : Z) (ev : CalendarEvent) :
  date mod JsDate.msPerDay = 0 →
  (start ev = None → yearDayTest date ev = false) ∧
  ∀ s, start ev = Some s →
    (isMultiDayEvent ev = false →
       yearDayTest date ev = (JsDate.dayOf s =? JsDate.dayOf date)) ∧
    ∀ e, end_ ev = Some e → JsDate.dayOf s ≠ JsDate.dayOf e →
      (s <= e →
         (yearDayTest date ev = true ↔
            JsDate.dayOf s <= JsDate.dayOf date <= JsDate.dayOf e)) ∧
      (e < s →
         yearDayTest date ev = (JsDate.dayOf s =? JsDate.dayOf date)).
Proof.
  intros Hmid. unfold yearDayTest. split; [by intros ->|].
  intros s Hs. rewrite Hs. split.
  - unfold isMultiDayEvent. rewrite Hs. intros Hm.
    destruct (JsDate.dayOf s =? JsDate.dayOf date); [done|].
    destruct (end_ ev) as [e|]; [|done]. by rewrite Hm.
  - intros e -> Hne.
    assert (date = JsDate.dayOf date * JsDate.msPerDay) as Hdate.
    { unfold JsDate.dayOf. pose proof (Z.div_mod date JsDate.msPerDay).
      unfold JsDate.msPerDay in *. lia. }
    pose proof (proj1 (day_bounds s _) eq_refl) as Hbs.
    pose proof (proj1 (day_bounds e _) eq_refl) as Hbe.
    set (d := JsDate.dayOf date) in *.
    apply Z.eqb_neq in Hne. rewrite Hne. simpl.
    apply Z.eqb_neq in Hne.
    destruct (JsDate.dayOf s =? d) eqn:Hsd.
    + apply Z.eqb_eq in Hsd. split; [|done]. intros Hle. split; [|done].
      intros _. split; [lia|]. apply day_le. lia.
    + apply Z.eqb_neq in Hsd. split.
      * intros Hle. rewrite andb_true_iff, Z.geb_le, Z.leb_le. split.
        -- intros [Ha Hb]. split.
           ++ assert (JsDate.dayOf s < d + 1); [|lia]. apply day_lt. lia.
           ++ apply day_le. lia.
        -- intros [Ha Hb]. split.
           ++ assert (s < d * JsDate.msPerDay); [|lia]. apply day_lt. lia.
           ++ assert (d * JsDate.msPerDay <= e); [|lia]. by apply day_le.
      * intros Hlt. apply andb_false_iff.
        destruct (decide (s <= date)) as [Hsd'|Hsd'].
        -- right. apply Z.leb_gt. lia.
        -- left. rewrite Z.geb_leb. apply Z.leb_gt. lia.
Qed.

(** The calendar of [getFullYear] and [getMonth] on some days: the day
    before and the day of the epoch, a leap day and the days around it,
    the last day of a year, and the cells of the examples. *)
Lemma civilFromDays_days :
  civilFromDays (-1) = (1969, 12, 31) ∧
  civilFromDays 0 = (1970, 1, 1) ∧
  civilFromDays (JsDate.daysFromCivil 2024 2 29) = (2024, 2, 29) ∧
  civilFromDays (JsDate.daysFromCivil 2024 2 29 + 1) = (2024, 3, 1) ∧
  civilFromDays (JsDate.daysFromCivil 2023 3 1 - 1) = (2023, 2, 28) ∧
  civilFromDays (JsDate.daysFromCivil 2000 12 31) = (2000, 12, 31) ∧
  civilFromDays (JsDate.daysFromCivil 1900 3 1 - 1) = (1900, 2, 28) ∧
  (getFullYear (cellDate 2023 4 31), getMonth (cellDate 2023 4 31)) = (2023, 4) ∧
  (getFullYear (cellDate 2023 5 1), getMonth (cellDate 2023 5 1)) = (2023, 5).
Proof. by vm_compute. Qed.

Lemma inMonth_same_day year index a b :
  JsDate.dayOf a = JsDate.dayOf b → inMonth year index a = inMonth year index b.
Proof. unfold inMonth, getFullYear, getMonth. by intros ->. Qed.

Lemma dayOf_midnight d : JsDate.dayOf (d * JsDate.msPerDay) = d.
Proof. unfold JsDate.dayOf, JsDate.msPerDay. by rewrite Z.div_mul. Qed.

(** East of Greenwich a day string parsed again falls on its own day. *)
Lemma inMonth_parseDay tz year index day :
  0 <= tz < JsDate.msPerDay →
  inMonth year index (parseDay tz day) = inMonth year index (day * JsDate.msPerDay).
Proof.
  intros Htz. apply inMonth_same_day. rewrite dayOf_midnight.
  apply day_bounds. by apply parseDay_bounds.
Qed.

(** The events of the month: those that start in it, and the multi-day
    events one of whose listed days falls in it. *)
Lemma monthEventsTest_multi tz year index ev s e :
  0 <= tz < JsDate.msPerDay →
  start ev = Some s → end_ ev = Some e → JsDate.dayOf s < JsDate.dayOf e →
  monthEventsTest tz year index ev = true ↔
  ∃ day, JsDate.dayOf s <= day ∧
    (day < JsDate.dayOf e ∨
     (day = JsDate.dayOf e ∧ s mod JsDate.msPerDay <= e mod JsDate.msPerDay)) ∧
    inMonth year index (day * JsDate.msPerDay) = true.
Proof.
  intros Htz Hs He Hlt. unfold monthEventsTest. rewrite Hs, He.
  assert (getMultiDayEventDays ev =
          seqZ (JsDate.dayOf s)
            (if e mod JsDate.msPerDay <? s mod JsDate.msPerDay
             then JsDate.dayOf e - JsDate.dayOf s
             else JsDate.dayOf e - JsDate.dayOf s + 1)) as Hdays.
  { unfold getMultiDayEventDays. rewrite Hs, He.
    assert ((JsDate.dayOf s =? JsDate.dayOf e) = false) as ->
      by (apply Z.eqb_neq; lia).
    rewrite dayStringsLoop_days. f_equal.
    unfold daysLoopTurns. rewrite days_between.
    destruct (e mod JsDate.msPerDay <? s mod JsDate.msPerDay); lia. }
  rewrite Hdays.
  assert (inMonth year index s = inMonth year index (JsDate.dayOf s * JsDate.msPerDay))
    as Hstart by (apply inMonth_same_day; by rewrite dayOf_midnight).
  split.
  - destruct (inMonth year index s) eqn:Hin.
    + intros _. exists (JsDate.dayOf s). split; [lia|]. split; [lia|done].
    + intros (day & Hday & Hm)%existsb_exists.
      apply list_elem_of_In, elem_of_seqZ in Hday.
      rewrite inMonth_parseDay in Hm by done.
      exists day. split; [lia|]. split; [|done].
      destruct (e mod JsDate.msPerDay <? s mod JsDate.msPerDay) eqn:E;
        [apply Z.ltb_lt in E|apply Z.ltb_ge in E]; lia.
  - intros (day & Hge & Hup & Hm).
    destruct (inMonth year index s); [done|].
    apply existsb_exists. exists day. split.
    + apply list_elem_of_In, elem_of_seqZ.
      destruct (e mod JsDate.msPerDay <? s mod JsDate.msPerDay) eqn:E;
        [apply Z.ltb_lt in E|apply Z.ltb_ge in E]; lia.
    + by rewrite inMonth_parseDay.
Qed.

(** X19.  The dots of the year view, for a cell of the month given by its
    midnight, in a zone at or east of Greenwich.  An event without start
    is never marked.  An event that is not multi-day, or that ends before
    it starts, is marked on its start day only.  A multi-day event that
    does not end before it starts is marked on the days from its start day
    through its end day, but on its end day only when the time of day of
    its end is not earlier than that of its start, or when one of its
    earlier days falls in the month of the cell: the events of the month
    are selected through [getMultiDayEventDays], which leaves that end day
    out. *)
Theorem X19_year_view_marks
    (tz year index date : Z) (events : list CalendarEvent) (ev : CalendarEvent) :
  0 <= tz < JsDate.msPerDay →
  date mod JsDate.msPerDay = 0 →
  inMonth year index date = true →
  (start ev = None → ev ∉ eventsForDay tz year index date events) ∧
  ∀ s, start ev = Some s →
    (isMultiDayEvent ev = false →
       (ev ∈ eventsForDay tz year index date events ↔
          ev ∈ events ∧ JsDate.dayOf s = JsDate.dayOf date)) ∧
    ∀ e, end_ ev = Some e → JsDate.dayOf s ≠ JsDate.dayOf e →
      (s <= e →
         (ev ∈ eventsForDay tz year index date events ↔
            ev ∈ events ∧
            JsDate.dayOf s <= JsDate.dayOf date <= JsDate.dayOf e ∧
            (JsDate.dayOf date < JsDate.dayOf e ∨
             s mod JsDate.msPerDay <= e mod JsDate.msPerDay ∨
             ∃ day, JsDate.dayOf s <= day < JsDate.dayOf e ∧
                    inMonth year index (day * JsDate.msPerDay) = true))) ∧
      (e < s →
         (ev ∈ eventsForDay tz year index date events ↔
            ev ∈ events ∧ JsDate.dayOf s = JsDate.dayOf date)).
Proof.
  intros Htz Hmid Hcell.
  destruct (yearDayTest_iff date ev Hmid) as [Hnone Hsome].
  assert (∀ x, x ∈ eventsForDay tz year index date events ↔
            x ∈ events ∧ monthEventsTest tz year index x = true
            ∧ yearDayTest date x = true) as Hmem.
  { intros x. unfold eventsForDay, monthEvents.
    rewrite !list_elem_of_filter, !Is_true_true. tauto. }
  assert (∀ s, start ev = Some s → JsDate.dayOf s = JsDate.dayOf date →
            monthEventsTest tz year index ev = true) as Hstarts.
  { intros s Hs Hd. unfold monthEventsTest. rewrite Hs.
    by rewrite (inMonth_same_day year index s date Hd), Hcell. }
  assert (inMonth year index (JsDate.dayOf date * JsDate.msPerDay) = true)
    as Hcell'.
  { rewrite <- Hcell. apply inMonth_same_day. by rewrite dayOf_midnight. }
  split.
  { intros Hs Hin. apply Hmem in Hin as (_ & _ & Ht).
    by rewrite (Hnone Hs) in Ht. }
  intros s Hs. destruct (Hsome s Hs) as [Hsingle Hmulti]. split.
  - intros Hm. rewrite Hmem, (Hsingle Hm), Z.eqb_eq. split.
    + intros (? & _ & ?). done.
    + intros [? Hd]. split_and!; try done. by apply (Hstarts s).
  - intros e He Hne. destruct (Hmulti e He Hne) as [Hfwd Hinv]. split.
    + intros Hle. specialize (Hfwd Hle).
      assert (JsDate.dayOf s < JsDate.dayOf e) as Hlt.
      { assert (JsDate.dayOf s <= JsDate.dayOf e); [|lia].
        unfold JsDate.dayOf, JsDate.msPerDay. apply Z.div_le_mono; lia. }
      rewrite Hmem, Hfwd, (monthEventsTest_multi tz year index ev s e) by done.
      split.
      * intros (Hin & (day & Hge & Hup & Hm) & Hrange).
        split_and!; try done; try lia.
        destruct Hup as [Hup|[-> Htod]]; [|by right; left].
        right. right. exists day. split; [lia|done].
      * intros (Hin & Hrange & Hcase). split_and!; try done; try lia.
        destruct Hcase as [Hbefore|[Htod|(day & Hday & Hm)]].
        -- exists (JsDate.dayOf date). split; [lia|]. split; [by left|done].
        -- exists (JsDate.dayOf date). split; [lia|]. split; [|done].
           destruct (decide (JsDate.dayOf date < JsDate.dayOf e)); [by left|].
           right. split; [lia|done].
        -- exists day. split; [lia|]. split; [left; lia|done].
    + intros Hlt. specialize (Hinv Hlt). rewrite Hmem, Hinv, Z.eqb_eq. split.
      * intros (? & _ & ?). done.
      * intros [? Hd]. split_and!; try done. by apply (Hstarts s).
Qed.

(** The event from 31 May 22:00 to 1 June 02:00 in the year view of 2023:
    marked on 31 May, not on 1 June. *)
Lemma X19_year_view_marks_witness :
  evOvernight ∈ eventsForDay twoHoursEast 2023 4 (cellDate 2023 4 31) [evOvernight] ∧
  eventsForDay twoHoursEast 2023 5 (cellDate 2023 5 1) [evOvernight] = [] ∧
  (evOvernight ∈ eventsForDay twoHoursEast 2023 4 (cellDate 2023 4 31) [evOvernight] ↔
     evOvernight ∈ [evOvernight] ∧
     JsDate.dayOf (JsDate.at_ 2023 5 31 22 0) <= JsDate.dayOf (cellDate 2023 4 31)
       <= JsDate.dayOf (JsDate.at_ 2023 6 1 2 0) ∧
     (JsDate.dayOf (cellDate 2023 4 31) < JsDate.dayOf (JsDate.at_ 2023 6 1 2 0) ∨
      JsDate.at_ 2023 5 31 22 0 mod JsDate.msPerDay
        <= JsDate.at_ 2023 6 1 2 0 mod JsDate.msPerDay ∨
      ∃ day, JsDate.dayOf (JsDate.at_ 2023 5 31 22 0) <= day
               < JsDate.dayOf (JsDate.at_ 2023 6 1 2 0) ∧
             inMonth 2023 4 (day * JsDate.msPerDay) = true)).
Proof.
  split; [by vm_compute; left|]. split; [by vm_compute|].
  refine (proj1 (proj2 (proj2 (X19_year_view_marks twoHoursEast 2023 4
    (cellDate 2023 4 31) [evOvernight] evOvernight _ _ _)
    (JsDate.at_ 2023 5 31 22 0) eq_refl) (JsDate.at_ 2023 6 1 2 0) eq_refl _) _);
    by vm_compute.
Defined.

(** * Further properties of the layout, continued *)

(** ** Events that share an id *)

(** X20.  Two events with the same id, the first ending at or before the
    start of the second: each is a cluster of its own, and the column
    count of the second cluster is written into the layout of the first
    event again, which [find] meets first.  The second layout keeps the
    count 0, and its rectangle comes back with width [100 / 0], infinite,
    and left [0 * Infinity], not a number. *)
Theorem X20_shared_id_leaves_count_unset
    (a b : CalendarEvent) (sh : Z) (hh : Q) (vd : Z) :
  is_Some (start a) → is_Some (start b) → entirelyBefore a b → id a = id b →
  computeLayouts [a; b] vd = [withTotal 1 (newLayout vd a 0); newLayout vd b 0] ∧
  (λ p, (p_event p, p_left p, p_width p))
    <$> calculateEventPositions [a; b] sh hh vd =
    [(a, leftPercentage 0 (widthPercentage 1), widthPercentage 1);
     (b, NaN, PosInf)].
Proof.
  intros [sa Ha] [sb Hb] Hab Hid.
  assert (sortedEvents [a; b] = [a; b]) as Hsort.
  { apply sortedEvents_ordered.
    - apply StronglySorted_cons. split.
      + apply Forall_singleton. destruct Hab. unfold byKey. lia.
      + apply StronglySorted_cons. split; constructor.
    - repeat constructor; by eexists. }
  assert (buildGroups [a; b] = [[a]; [b]]) as Hg.
  { apply (buildGroups_chain [a; b]).
    - apply StronglySorted_cons. split; [by apply Forall_singleton|].
      apply StronglySorted_cons. split; constructor.
    - repeat constructor; by eexists. }
  assert (computeLayouts [a; b] vd =
          [withTotal 1 (newLayout vd a 0); newLayout vd b 0]) as Hl.
  { unfold computeLayouts. rewrite Hsort, Hg. simpl.
    unfold processGroup, placeStep. simpl. rewrite Ha, Hb. simpl.
    rewrite String.eqb_refl. simpl. rewrite <- Hid, String.eqb_refl. done. }
  split; [done|].
  rewrite positions_of_layouts, Hl. simpl. unfold project. simpl.
  rewrite Ha, Hb. done.
Qed.

Lemma X20_shared_id_leaves_count_unset_witness :
  computeLayouts [evA; timed "A" (june2 10 0) (june2 11 0)] (june2 0 0) =
    [withTotal 1 (newLayout (june2 0 0) evA 0);
     newLayout (june2 0 0) (timed "A" (june2 10 0) (june2 11 0)) 0].
Proof.
  refine (proj1 (X20_shared_id_leaves_count_unset evA
    (timed "A" (june2 10 0) (june2 11 0)) 0 60 (june2 0 0) _ _ _ _)).
  - by eexists.
  - by eexists.
  - by vm_compute.
  - reflexivity.
Defined.

(** ** The clusters split the events *)

Lemma groupStep_nonempty st x :
  Forall (λ g, g ≠ []) st.1 →
  Forall (λ g : list CalendarEvent, g ≠ []) (groupStep st x).1.
Proof.
  destruct st as [gs cur]. simpl. intros Hgs. unfold groupStep.
  destruct (start x); [|done]. simpl.
  destruct cur as [|c cur]; [done|].
  destruct (existsb _ _); simpl; [done|].
  apply Forall_app. split; [done|]. by apply Forall_singleton.
Qed.

(** X21.  The clusters split the events that have a start: laid end to
    end they are those events in the order of the sort, every such event
    of the input is in some cluster, every event of a cluster is an event
    of the input with a start, and no cluster is empty. *)
Theorem X21_clusters_split_the_events (evs : list CalendarEvent) :
  concat (buildGroups (sortedEvents evs)) = started (sortedEvents evs) ∧
  concat (buildGroups (sortedEvents evs)) ≡ₚ started evs ∧
  (∀ e, (∃ g, g ∈ buildGroups (sortedEvents evs) ∧ e ∈ g) ↔
        e ∈ evs ∧ is_Some (start e)) ∧
  Forall (λ g, g ≠ []) (buildGroups (sortedEvents evs)).
Proof.
  split_and!.
  - apply buildGroups_concat.
  - rewrite buildGroups_concat. unfold started. by rewrite sortedEvents_perm.
  - intros e. split.
    + intros (g & Hg & He).
      destruct (buildGroups_started _ _ _ Hg He) as [Hs Hin].
      by rewrite sortedEvents_perm in Hin.
    + intros [Hin Hs].
      assert (e ∈ concat (buildGroups (sortedEvents evs))) as Hc.
      { rewrite buildGroups_concat. unfold started.
        apply list_elem_of_filter. by rewrite sortedEvents_perm. }
      by apply elem_of_concat_inv in Hc.
  - unfold buildGroups.
    assert (∀ l st, Forall (λ g : list CalendarEvent, g ≠ []) st.1 →
              Forall (λ g, g ≠ []) (fold_left groupStep l st).1) as Hgen.
    { induction l as [|x l IH]; intros st Hst; simpl; [done|].
      apply IH. by apply groupStep_nonempty. }
    specialize (Hgen (sortedEvents evs) ([], []) (Forall_nil_2 _)).
    unfold closeGroups.
    destruct (fold_left groupStep (sortedEvents evs) ([], [])) as [gs [|c cur]];
      simpl in *; [done|].
    apply Forall_app. split; [done|]. by apply Forall_singleton.
Qed.

Lemma X21_clusters_split_the_events_witness :
  ∃ g, g ∈ buildGroups (sortedEvents [evB; noStart "N"; evA]) ∧ evA ∈ g.
Proof.
  apply (proj1 (proj2 (proj2 (X21_clusters_split_the_events
           [evB; noStart "N"; evA]))) evA).
  split; [|by eexists]. right. right. left.
Defined.
